(** * todoApp: the task store of [main.go]

    A shallow embedding of [TaskStore] (load, save, List, Create, Toggle,
    Delete) and the properties of its specification.

    Layout:
    - Go's [int], the [Task] and [TaskStore] records, the errors of main.go;
    - the standard-library functions main.go calls, as a type class;
    - the file system as a finite map from paths to contents, and the system
      calls that can fail as an explicit input of each operation;
    - the store operations over task sequences;
    - the same operations over Go slices in a heap of backing arrays
      (module [Mem]), for the claims about aliasing;
    - a reference instance of the library class (module [Ref]) on which the
      operations compute, and a second one (module [Utf8]) whose codec treats
      titles that are not UTF-8 as encoding/json does;
    - the HTTP handlers that [main] registers, over the same store;
    - the theorems. *)

From Stdlib Require Import ZArith Lia Sorted Ascii String.
From stdpp Require Import gmap strings list fin_maps sorting.

(** ** Go's [int] (64-bit two's complement) *)

Definition int_min : Z := (- 2 ^ 63)%Z.
Definition int_max : Z := (2 ^ 63 - 1)%Z.

(** The value of an arithmetic result once stored in an [int]. *)
Definition wrap (z : Z) : Z := ((z + 2 ^ 63) `mod` 2 ^ 64 - 2 ^ 63)%Z.

Definition in_int (z : Z) : Prop := (int_min ≤ z ≤ int_max)%Z.

(** ** Data model *)

(** [time.Time]: an instant, counted from Go's zero time. *)
Definition Time : Type := Z.

Record Task := mkTask {
  ID : Z;
  Title : string;
  Done : bool;
  CreatedAt : Time;
}.

(** [Task{}] *)
Definition zeroTask : Task :=
  {| ID := 0; Title := ""; Done := false; CreatedAt := 0%Z |}.

#[global] Instance Task_inhabited : Inhabited Task := populate zeroTask.

#[global] Instance Task_eq_dec : EqDecision Task.
Proof. solve_decision. Defined.

(** [TaskStore] without its lock: every exported operation holds [mu] from
    its first access to the fields until it returns, so each one is a single
    transition of the store. *)
Record TaskStore := mkStore {
  tasks : list Task;
  nextID : Z;
  dataDir : string;
}.

(** The errors main.go builds, one constructor per message. *)
Inductive error :=
  | ErrTitleRequired      (* errors.New("title is required") *)
  | ErrTaskNotFound       (* errors.New("task not found") *)
  | ErrCreateDataDir      (* "create data dir: %w" *)
  | ErrOpenTasksFile      (* "open tasks file: %w" *)
  | ErrDecodeTasksFile    (* "decode tasks file: %w" *)
  | ErrCreateTempFile     (* "create temp file: %w" *)
  | ErrEncodeTasks        (* "encode tasks: %w" *)
  | ErrCloseTempFile      (* "close temp file: %w" *)
  | ErrRenameTempFile.    (* "rename temp file: %w" *)

#[global] Instance error_eq_dec : EqDecision error.
Proof. solve_decision. Defined.

(** The error kinds of the specification (its section 7): empty title is a
    validation error, unknown id is not-found, every directory, file or
    serialization failure is a persistence error. *)
Inductive ErrorKind := ValidationError | NotFoundError | PersistenceError.

Definition kind (e : error) : ErrorKind :=
  match e with
  | ErrTitleRequired => ValidationError
  | ErrTaskNotFound => NotFoundError
  | _ => PersistenceError
  end.

(** The largest element of a list of ids, as a relation: there is none for
    the empty list. *)
Definition is_max (m : Z) (ids : list Z) : Prop :=
  m ∈ ids ∧ ∀ x, x ∈ ids → (x ≤ m)%Z.

(** ** The standard library, as main.go uses it *)

Class GoStd := {
  (** [strings.TrimSpace] *)
  strings_TrimSpace : string → string;
  (** [filepath.Join] of two elements *)
  filepath_Join : string → string → string;
  (** [json.Encoder.Encode] of a [[]Task]: the text written, or [None] when
      marshalling fails *)
  json_Encode : list Task → option string;
  (** [json.Decoder.Decode] into a [[]Task]: [None] when the text is
      malformed *)
  json_Decode : string → option (list Task);
  (** the runtime's choice of spare capacity when a slice whose capacity is
      the first argument moves to a new backing array that must hold the
      second argument's number of elements *)
  runtime_slack : nat → nat → nat;
}.

(** ** The file system and its failures *)

(** Regular files by path. *)
Abbreviation FS := (gmap string string).

(** The step of [save] at which a system call fails. *)
Inductive SaveFault :=
  | CreateFails                      (* os.Create *)
  | WriteFails (written : string)    (* the encoder's write, after [written] *)
  | CloseFails                       (* f.Close *)
  | RenameFails.                     (* os.Rename *)

(** What the operating system does during one [save]: the failing step, if
    any, and whether the best-effort [os.Remove] of the temporary file works. *)
Record SaveIO := mkSaveIO {
  fault : option SaveFault;
  removeOK : bool;
}.

Definition SaveRuns : SaveIO := {| fault := None; removeOK := true |}.

(** What the operating system does during one [load]. *)
Inductive LoadIO :=
  | LoadRuns
  | MkdirFails      (* os.MkdirAll *)
  | OpenFails       (* os.Open, with an error other than os.ErrNotExist *)
  | ReadFails.      (* os.Open works and the decoder's read fails: the path is
                       a directory, or the device reports an error *)

Section Store.
Context `{GoStd}.

Definition dataPath (s : TaskStore) : string :=
  filepath_Join (dataDir s) "tasks.json".

(** The loop of [load]: the largest id above the initial 0. *)
Fixpoint maxID_loop (maxID : Z) (loaded : list Task) : Z :=
  match loaded with
  | [] => maxID
  | t :: rest => maxID_loop (if (maxID <? ID t)%Z then ID t else maxID) rest
  end.

Definition load (io : LoadIO) (s : TaskStore) (fs : FS) : TaskStore * option error :=
  match io with
  | MkdirFails => (s, Some ErrCreateDataDir)
  | OpenFails => (s, Some ErrOpenTasksFile)
  | ReadFails => (s, Some ErrDecodeTasksFile)
  | LoadRuns =>
      match fs !! dataPath s with
      | None => (s, None)
      | Some text =>
          match json_Decode text with
          | None => (s, Some ErrDecodeTasksFile)
          | Some loaded =>
              let maxID := maxID_loop 0 loaded in
              let next := wrap (maxID + 1) in
              ({| tasks := loaded;
                  nextID := if (next <? 1)%Z then 1%Z else next;
                  dataDir := dataDir s |}, None)
          end
      end
  end.

(** The counter [load] leaves for a decoded list [l]. *)
Definition next_after (l : list Task) : Z :=
  let next := wrap (maxID_loop 0 l + 1) in if (next <? 1)%Z then 1%Z else next.

Definition NewTaskStore (io : LoadIO) (dir : string) (fs : FS) : TaskStore + error :=
  let s := {| tasks := []; nextID := 1; dataDir := dir |} in
  match load io s fs with
  | (_, Some err) => inr err
  | (s', None) => inl s'
  end.

Definition remove_tmp (io : SaveIO) (tmpPath : string) (fs : FS) : FS :=
  if removeOK io then delete tmpPath fs else fs.

Definition save (io : SaveIO) (s : TaskStore) (fs : FS) : FS * option error :=
  let tmpPath := dataPath s +:+ ".tmp" in
  match fault io with
  | Some CreateFails => (fs, Some ErrCreateTempFile)
  | flt =>
      let fs0 := <[tmpPath := ""]> fs in
      match json_Encode (tasks s) with
      | None => (remove_tmp io tmpPath fs0, Some ErrEncodeTasks)
      | Some text =>
          match flt with
          | Some (WriteFails written) =>
              (remove_tmp io tmpPath (<[tmpPath := written]> fs0), Some ErrEncodeTasks)
          | Some CloseFails =>
              (remove_tmp io tmpPath (<[tmpPath := text]> fs0), Some ErrCloseTempFile)
          | Some RenameFails =>
              (remove_tmp io tmpPath (<[tmpPath := text]> fs0), Some ErrRenameTempFile)
          | _ => (<[dataPath s := text]> (delete tmpPath (<[tmpPath := text]> fs0)), None)
          end
      end
  end.

(** [List]: the elements of the copy it returns (the copy as a slice of its
    own is [Mem.List]). *)
Definition List (s : TaskStore) : list Task := tasks s.

Definition Create (now : Time) (io : SaveIO) (title : string)
    (s : TaskStore) (fs : FS) : TaskStore * FS * (Task * option error) :=
  let title := strings_TrimSpace title in
  if decide (title = "") then (s, fs, (zeroTask, Some ErrTitleRequired))
  else
    let task := {| ID := nextID s; Title := title; Done := false; CreatedAt := now |} in
    let s1 := {| tasks := tasks s ++ [task];
                 nextID := wrap (nextID s + 1);
                 dataDir := dataDir s |} in
    match save io s1 fs with
    | (fs', Some err) => (s1, fs', (zeroTask, Some err))
    | (fs', None) => (s1, fs', (task, None))
    end.

(** The store after a Create whose title is not blank, whatever [save]
    does. *)
Definition appended (now : Time) (title : string) (s : TaskStore) : TaskStore :=
  {| tasks := tasks s ++ [{| ID := nextID s; Title := strings_TrimSpace title;
                             Done := false; CreatedAt := now |}];
     nextID := wrap (nextID s + 1);
     dataDir := dataDir s |}.

(** The [range] loops of [Toggle] and [Delete]: the first index whose task
    has the id. *)
Fixpoint index_of (id : Z) (ts : list Task) : option nat :=
  match ts with
  | [] => None
  | t :: rest => if decide (ID t = id) then Some 0 else S <$> index_of id rest
  end.

Definition flip_done (t : Task) : Task :=
  {| ID := ID t; Title := Title t; Done := negb (Done t); CreatedAt := CreatedAt t |}.

Definition Toggle (io : SaveIO) (id : Z)
    (s : TaskStore) (fs : FS) : TaskStore * FS * (Task * option error) :=
  match index_of id (tasks s) with
  | Some i =>
      let s1 := {| tasks := alter flip_done i (tasks s);
                   nextID := nextID s;
                   dataDir := dataDir s |} in
      match save io s1 fs with
      | (fs', Some err) => (s1, fs', (zeroTask, Some err))
      | (fs', None) => (s1, fs', (tasks s1 !!! i, None))
      end
  | None => (s, fs, (zeroTask, Some ErrTaskNotFound))
  end.

Definition Delete (io : SaveIO) (id : Z)
    (s : TaskStore) (fs : FS) : TaskStore * FS * option error :=
  match index_of id (tasks s) with
  | Some i =>
      let s1 := {| tasks := take i (tasks s) ++ drop (S i) (tasks s);
                   nextID := nextID s;
                   dataDir := dataDir s |} in
      let '(fs', err) := save io s1 fs in
      (s1, fs', err)
  | None => (s, fs, Some ErrTaskNotFound)
  end.

(** ** Sequences of operations *)

Inductive Op :=
  | OpCreate (now : Time) (io : SaveIO) (title : string)
  | OpToggle (io : SaveIO) (id : Z)
  | OpDelete (io : SaveIO) (id : Z).

(** What an operation returns: a task and an error, or an error alone. *)
Inductive Reply :=
  | RTask (t : Task) (err : option error)
  | RErr (err : option error).

Definition step (o : Op) (s : TaskStore) (fs : FS) : TaskStore * FS * Reply :=
  match o with
  | OpCreate now io title =>
      let '(s', fs', (t, err)) := Create now io title s fs in (s', fs', RTask t err)
  | OpToggle io id =>
      let '(s', fs', (t, err)) := Toggle io id s fs in (s', fs', RTask t err)
  | OpDelete io id =>
      let '(s', fs', err) := Delete io id s fs in (s', fs', RErr err)
  end.

Fixpoint run (ops : list Op) (s : TaskStore) (fs : FS)
    : TaskStore * FS * list (Op * Reply) :=
  match ops with
  | [] => (s, fs, [])
  | o :: rest =>
      let '(s1, fs1, r) := step o s fs in
      let '(s2, fs2, tr) := run rest s1 fs1 in
      (s2, fs2, (o, r) :: tr)
  end.

(** The ids handed out by the Create calls of a trace that returned no
    error, in call order. *)
Definition created_id (e : Op * Reply) : option Z :=
  match e with
  | (OpCreate _ _ _, RTask t None) => Some (ID t)
  | _ => None
  end.

Definition created_ids (tr : list (Op * Reply)) : list Z := omap created_id tr.

(** An operation hands out an id when it is a Create whose trimmed title is
    not empty, whether or not its save works. *)
Definition consumes (o : Op) : bool :=
  match o with
  | OpCreate _ _ title => bool_decide (strings_TrimSpace title ≠ "")
  | _ => false
  end.

(** The number of ids a sequence of operations hands out. *)
Fixpoint handed_out (ops : list Op) : nat :=
  match ops with
  | [] => 0
  | o :: rest => (if consumes o then 1 else 0) + handed_out rest
  end.

(** The states a process can be in: the store [NewTaskStore] returns, and
    every state an operation leads to from there. *)
Inductive reachable : TaskStore → FS → Prop :=
  | reach_new io dir fs s :
      NewTaskStore io dir fs = inl s → reachable s fs
  | reach_step o s fs s' fs' r :
      reachable s fs → step o s fs = (s', fs', r) → reachable s' fs'.

(** What one operation can do to the store: nothing, append a task under
    the current nextID, flip one task, or delete one task. *)
Inductive effect (s s' : TaskStore) (o : Op) (r : Reply) : Prop :=
  | eff_none :
      s' = s → created_id (o, r) = None → effect s s' o r
  | eff_append now title :
      s' = appended now title s →
      created_id (o, r) = None ∨ created_id (o, r) = Some (nextID s) →
      effect s s' o r
  | eff_toggle i :
      s' = {| tasks := alter flip_done i (tasks s); nextID := nextID s;
              dataDir := dataDir s |} →
      created_id (o, r) = None → effect s s' o r
  | eff_delete i :
      s' = {| tasks := delete i (tasks s); nextID := nextID s;
              dataDir := dataDir s |} →
      created_id (o, r) = None → effect s s' o r.

(** Ids are distinct and below the counter, which is an [int]. *)
Definition store_inv (s : TaskStore) : Prop :=
  NoDup (ID <$> tasks s) ∧
  Forall (λ i, (i < nextID s)%Z) (ID <$> tasks s) ∧
  in_int (nextID s).

End Store.

(** ** The store over Go slices

    [s.tasks] is a slice: a window on a backing array that other slices may
    share. This module keeps the backing arrays in a heap, gives [make],
    [copy], [append], indexing and slicing their Go meaning, and writes the
    store operations with them. [view] reads a store of this module as a
    [TaskStore]. *)
Module Mem.

(** Backing arrays by address; arrays are never freed. *)
Abbreviation heap := (list (list Task)).

Record slice := mkSlice {
  ptr : nat;     (* the backing array *)
  off : nat;     (* index of the slice's first element in it *)
  len : nat;
}.

Record MStore := mkMStore {
  mtasks : slice;
  mnextID : Z;
  mdataDir : string;
}.

Definition array (h : heap) (sl : slice) : list Task := h !!! ptr sl.

Definition cap (h : heap) (sl : slice) : nat := length (array h sl) - off sl.

(** The elements of a slice, in order. *)
Definition elems (h : heap) (sl : slice) : list Task :=
  take (len sl) (drop (off sl) (array h sl)).

(** A slice is a window on an allocated array. *)
Definition window_ok (h : heap) (sl : slice) : Prop :=
  ptr sl < length h ∧ off sl + len sl ≤ length (array h sl).

(** [sl[lo:hi]] *)
Definition sub (sl : slice) (lo hi : nat) : slice :=
  {| ptr := ptr sl; off := off sl + lo; len := hi - lo |}.

(** Overwrite the cells of an array from index [o] on with [xs]. *)
Definition write_at (o : nat) (xs : list Task) (arr : list Task) : list Task :=
  take o arr ++ xs ++ drop (o + length xs) arr.

(** [sl[i] = t]; out of range the statement panics and nothing is written. *)
Definition set_index (sl : slice) (i : nat) (t : Task) (h : heap) : option heap :=
  if decide (i < len sl) then Some (alter (write_at (off sl + i) [t]) (ptr sl) h)
  else None.

(** [make([]Task, n)] *)
Definition make (n : nat) (h : heap) : heap * slice :=
  (h ++ [replicate n zeroTask], {| ptr := length h; off := 0; len := n |}).

(** [copy(dst, src)] *)
Definition copy (dst src : slice) (h : heap) : heap :=
  let n := len dst `min` len src in
  alter (write_at (off dst) (take n (elems h src))) (ptr dst) h.

Section WithStd.
Context `{GoStd}.

(** [append(sl, xs...)]: in place when the capacity allows, else in a new
    backing array. The appended elements are read before any cell is
    written. *)
Definition append (sl : slice) (xs : list Task) (h : heap) : heap * slice :=
  let n := len sl + length xs in
  if decide (n ≤ cap h sl) then
    (alter (write_at (off sl + len sl) xs) (ptr sl) h,
     {| ptr := ptr sl; off := off sl; len := n |})
  else
    (h ++ [elems h sl ++ xs ++ replicate (runtime_slack (cap h sl) n) zeroTask],
     {| ptr := length h; off := 0; len := n |}).

Definition view (h : heap) (ms : MStore) : TaskStore :=
  {| tasks := elems h (mtasks ms); nextID := mnextID ms; dataDir := mdataDir ms |}.

(** The store's slice is a window on an allocated array. *)
Definition wf (h : heap) (ms : MStore) : Prop := window_ok h (mtasks ms).

(** The decoder builds [loaded] in a backing array of its own. *)
Definition load (io : LoadIO) (h : heap) (ms : MStore) (fs : FS)
    : heap * MStore * option error :=
  match io with
  | MkdirFails => (h, ms, Some ErrCreateDataDir)
  | OpenFails => (h, ms, Some ErrOpenTasksFile)
  | ReadFails => (h, ms, Some ErrDecodeTasksFile)
  | LoadRuns =>
      match fs !! dataPath (view h ms) with
      | None => (h, ms, None)
      | Some text =>
          match json_Decode text with
          | None => (h, ms, Some ErrDecodeTasksFile)
          | Some decoded =>
              let n := length decoded in
              let h1 := h ++ [decoded ++ replicate (runtime_slack 0 n) zeroTask] in
              let loaded := {| ptr := length h; off := 0; len := n |} in
              let maxID := maxID_loop 0 (elems h1 loaded) in
              let next := wrap (maxID + 1) in
              (h1,
               {| mtasks := loaded;
                  mnextID := if (next <? 1)%Z then 1%Z else next;
                  mdataDir := mdataDir ms |}, None)
          end
      end
  end.

Definition NewTaskStore (io : LoadIO) (dir : string) (h : heap) (fs : FS)
    : heap * (MStore + error) :=
  let '(h0, empty) := make 0 h in
  let ms := {| mtasks := empty; mnextID := 1; mdataDir := dir |} in
  match load io h0 ms fs with
  | (h1, _, Some err) => (h1, inr err)
  | (h1, ms', None) => (h1, inl ms')
  end.

(** [save] only reads the store. *)
Definition save (io : SaveIO) (h : heap) (ms : MStore) (fs : FS) : FS * option error :=
  save io (view h ms) fs.

Definition List (h : heap) (ms : MStore) : heap * slice :=
  let '(h1, out) := make (len (mtasks ms)) h in
  (copy out (mtasks ms) h1, out).

Definition Create (now : Time) (io : SaveIO) (title : string)
    (h : heap) (ms : MStore) (fs : FS) : heap * MStore * FS * (Task * option error) :=
  let title := strings_TrimSpace title in
  if decide (title = "") then (h, ms, fs, (zeroTask, Some ErrTitleRequired))
  else
    let task := {| ID := mnextID ms; Title := title; Done := false; CreatedAt := now |} in
    let '(h1, sl1) := append (mtasks ms) [task] h in
    let ms1 := {| mtasks := sl1;
                  mnextID := wrap (mnextID ms + 1);
                  mdataDir := mdataDir ms |} in
    match save io h1 ms1 fs with
    | (fs', Some err) => (h1, ms1, fs', (zeroTask, Some err))
    | (fs', None) => (h1, ms1, fs', (task, None))
    end.

Definition Toggle (io : SaveIO) (id : Z)
    (h : heap) (ms : MStore) (fs : FS) : heap * MStore * FS * (Task * option error) :=
  match index_of id (elems h (mtasks ms)) with
  | Some i =>
      let h1 := alter (alter flip_done (off (mtasks ms) + i)) (ptr (mtasks ms)) h in
      match save io h1 ms fs with
      | (fs', Some err) => (h1, ms, fs', (zeroTask, Some err))
      | (fs', None) => (h1, ms, fs', (elems h1 (mtasks ms) !!! i, None))
      end
  | None => (h, ms, fs, (zeroTask, Some ErrTaskNotFound))
  end.

Definition Delete (io : SaveIO) (id : Z)
    (h : heap) (ms : MStore) (fs : FS) : heap * MStore * FS * option error :=
  match index_of id (elems h (mtasks ms)) with
  | Some i =>
      let sl := mtasks ms in
      let '(h1, sl1) := append (sub sl 0 i) (elems h (sub sl (S i) (len sl))) h in
      let ms1 := {| mtasks := sl1; mnextID := mnextID ms; mdataDir := mdataDir ms |} in
      let '(fs', err) := save io h1 ms1 fs in
      (h1, ms1, fs', err)
  | None => (h, ms, fs, Some ErrTaskNotFound)
  end.

(** What a caller can do with a slice it holds. *)
Inductive Mutation :=
  | MSet (i : nat) (t : Task)        (* out[i] = t *)
  | MAppend (xs : list Task)         (* out = append(out, xs...) *)
  | MSub (lo hi : nat).              (* out = out[lo:hi] *)

Definition mutate (m : Mutation) (h : heap) (out : slice) : heap * slice :=
  match m with
  | MSet i t => (default h (set_index out i t h), out)
  | MAppend xs => append out xs h
  | MSub lo hi =>
      if decide (lo ≤ hi ≤ cap h out) then (h, sub out lo hi) else (h, out)
  end.

Fixpoint mutate_all (ms : list Mutation) (h : heap) (out : slice) : heap * slice :=
  match ms with
  | [] => (h, out)
  | m :: rest => let '(h1, out1) := mutate m h out in mutate_all rest h1 out1
  end.

(** The states of a store, of the heap it lives in and of the slices its
    callers hold: the store [NewTaskStore] returns, the states its operations
    lead to, and the states left by callers that keep the slices [List]
    returned to them and assign to, append to or reslice any of them at any
    later time. *)
Inductive reachable : heap → MStore → FS → list slice → Prop :=
  | reach_new io dir h fs h' ms :
      NewTaskStore io dir h fs = (h', inl ms) → reachable h' ms fs []
  | reach_Create now io title h ms fs outs h' ms' fs' r :
      reachable h ms fs outs →
      Create now io title h ms fs = (h', ms', fs', r) → reachable h' ms' fs' outs
  | reach_Toggle io id h ms fs outs h' ms' fs' r :
      reachable h ms fs outs →
      Toggle io id h ms fs = (h', ms', fs', r) → reachable h' ms' fs' outs
  | reach_Delete io id h ms fs outs h' ms' fs' r :
      reachable h ms fs outs →
      Delete io id h ms fs = (h', ms', fs', r) → reachable h' ms' fs' outs
  | reach_List h ms fs outs :
      reachable h ms fs outs →
      reachable (List h ms).1 ms fs ((List h ms).2 :: outs)
  | reach_mutate m out h ms fs outs :
      reachable h ms fs outs → out ∈ outs →
      reachable (mutate m h out).1 ms fs ((mutate m h out).2 :: outs).

(** No slice a caller holds is a window on the store's backing array. *)
Definition separated (h : heap) (ms : MStore) (outs : list slice) : Prop :=
  Forall (λ out, ptr out < length h ∧ ptr out ≠ ptr (mtasks ms)) outs.

(** From one heap and store to the next: the heap has not shrunk, and the
    store's slice is on the array it was on or on one allocated since. *)
Definition moved (h : heap) (ms : MStore) (h' : heap) (ms' : MStore) : Prop :=
  length h ≤ length h' ∧
  (ptr (mtasks ms') = ptr (mtasks ms) ∨ length h ≤ ptr (mtasks ms')).

End WithStd.
End Mem.

(** ** A reference instance of the library

    Executable stand-ins for the library functions, so that the operations
    can be run on concrete inputs. [TrimSpace] follows the documented
    behaviour of strings.TrimSpace (white space as Unicode defines it, over
    UTF-8). The codec reads and writes JSON arrays of task objects; it
    differs from encoding/json in layout (no indentation), in escaping (no
    HTML escapes, [\u] escapes only below U+0080), in matching keys exactly,
    and in writing [createdAt] as a number rather than as RFC 3339 text. *)
Module Ref.

Definition byte (n : nat) : ascii := Ascii.ascii_of_nat n.
Definition code (c : ascii) : nat := Ascii.nat_of_ascii c.

Definition bytes (l : list nat) : string :=
  foldr (λ n s, String (byte n) s) EmptyString l.

(** *** strings.TrimSpace *)

(** '\t', '\n', '\v', '\f', '\r', ' ' *)
Definition space1 (a : nat) : bool :=
  bool_decide (a ∈ [9; 10; 11; 12; 13; 32]).

(** U+0085 and U+00A0 in UTF-8 *)
Definition space2 (a b : nat) : bool :=
  bool_decide (a = 194 ∧ b ∈ [133; 160]).

(** U+1680, U+2000 to U+200A, U+2028, U+2029, U+202F, U+205F and U+3000 in
    UTF-8 *)
Definition space3 (a b c : nat) : bool :=
  bool_decide ((a = 225 ∧ b = 154 ∧ c = 128)
             ∨ (a = 226 ∧ b = 128 ∧ (128 ≤ c ≤ 138 ∨ c ∈ [168; 169; 175]))
             ∨ (a = 226 ∧ b = 129 ∧ c = 159)
             ∨ (a = 227 ∧ b = 128 ∧ c = 128)).

(** Drop the white-space runes at the front of a byte sequence. With
    [back = true] the sequence is a reversed string, and a rune's bytes come
    last byte first. *)
Fixpoint trim_front (back : bool) (s : list nat) : list nat :=
  match s with
  | [] => []
  | a :: r =>
      if space1 a then trim_front back r
      else match r with
           | [] => s
           | b :: r2 =>
               if (if back then space2 b a else space2 a b) then trim_front back r2
               else match r2 with
                    | [] => s
                    | c :: r3 =>
                        if (if back then space3 c b a else space3 a b c)
                        then trim_front back r3
                        else s
                    end
           end
  end.

Definition to_codes (s : string) : list nat := code <$> list_ascii_of_string s.

Definition TrimSpace (s : string) : string :=
  bytes (reverse (trim_front true (reverse (trim_front false (to_codes s))))).

(** *** filepath.Join, for a directory and a file name *)
Definition Join (dir name : string) : string :=
  if decide (dir = "") then name else dir +:+ "/" +:+ name.

(** *** The codec *)

#[warnings="-register-all"]
Inductive json :=
  | JNull
  | JBool (b : bool)
  | JNum (z : Z)
  | JStr (s : string)
  | JArr (l : list json)
  | JObj (l : list (string * json)).

Definition dquote : ascii := byte 34.
Definition backslash : ascii := byte 92.

Definition is_ws (c : ascii) : bool := bool_decide (code c ∈ [32; 9; 10; 13]).
Definition is_digit (c : ascii) : bool := bool_decide (48 ≤ code c ≤ 57).

Fixpoint skip_ws (s : string) : string :=
  match s with
  | String c r => if is_ws c then skip_ws r else s
  | EmptyString => s
  end.

Fixpoint strip_prefix (p s : string) : option string :=
  match p, s with
  | EmptyString, _ => Some s
  | String a p', String b s' => if Ascii.eqb a b then strip_prefix p' s' else None
  | _, _ => None
  end.

Definition hex_digit (c : ascii) : option nat :=
  let n := code c in
  if bool_decide (48 ≤ n ≤ 57) then Some (n - 48)
  else if bool_decide (97 ≤ n ≤ 102) then Some (n - 87)
  else if bool_decide (65 ≤ n ≤ 70) then Some (n - 55)
  else None.

(** The character after a backslash, short escapes only. *)
Definition unescape (e : ascii) : option ascii :=
  let n := code e in
  if bool_decide (n = 34) then Some dquote
  else if bool_decide (n = 92) then Some backslash
  else if bool_decide (n = 47) then Some (byte 47)
  else if bool_decide (n = 98) then Some (byte 8)
  else if bool_decide (n = 102) then Some (byte 12)
  else if bool_decide (n = 110) then Some (byte 10)
  else if bool_decide (n = 114) then Some (byte 13)
  else if bool_decide (n = 116) then Some (byte 9)
  else None.

(** The rest of a string literal, after its opening quote: its content and
    what follows the closing quote. *)
Fixpoint parse_chars (s : string) : option (string * string) :=
  match s with
  | EmptyString => None
  | String c r =>
      if Ascii.eqb c dquote then Some (EmptyString, r)
      else if Ascii.eqb c backslash then
        match r with
        | String e r1 =>
            if Ascii.eqb e (byte 117) then
              match r1 with
              | String h1 (String h2 (String h3 (String h4 r2))) =>
                  match hex_digit h1, hex_digit h2, hex_digit h3, hex_digit h4 with
                  | Some 0, Some 0, Some d3, Some d4 =>
                      if bool_decide (d3 < 8) then
                        '(str, rest) ← parse_chars r2;
                        Some (String (byte (16 * d3 + d4)) str, rest)
                      else None
                  | _, _, _, _ => None
                  end
              | _ => None
              end
            else
              match unescape e with
              | Some c' => '(str, rest) ← parse_chars r1; Some (String c' str, rest)
              | None => None
              end
        | EmptyString => None
        end
      else if bool_decide (code c < 32) then None
      else '(str, rest) ← parse_chars r; Some (String c str, rest)
  end.

Fixpoint parse_digits (acc : Z) (s : string) : Z * string :=
  match s with
  | String c r =>
      if is_digit c then parse_digits (10 * acc + Z.of_nat (code c - 48))%Z r
      else (acc, s)
  | EmptyString => (acc, s)
  end.

(** An integer literal; a fraction or an exponent does not fit an [int]
    field and is refused. *)
Definition parse_number (s : string) : option (Z * string) :=
  let '(neg, body) :=
    match s with
    | String c r => if Ascii.eqb c (byte 45) then (true, r) else (false, s)
    | EmptyString => (false, s)
    end in
  match body with
  | String c _ =>
      if is_digit c then
        let '(z, rest) := parse_digits 0 body in
        match rest with
        | String d _ =>
            if bool_decide (code d ∈ [46; 101; 69]) then None
            else Some (if neg then (- z)%Z else z, rest)
        | EmptyString => Some (if neg then (- z)%Z else z, rest)
        end
      else None
  | EmptyString => None
  end.

Fixpoint parse_value (fuel : nat) (s : string) {struct fuel} : option (json * string) :=
  match fuel with
  | 0 => None
  | S fuel =>
      match skip_ws s with
      | EmptyString => None
      | String c r as s' =>
          if Ascii.eqb c (byte 91) then
            match skip_ws r with
            | String d r' as r0 =>
                if Ascii.eqb d (byte 93) then Some (JArr [], r')
                else parse_elems fuel r0 []
            | EmptyString => None
            end
          else if Ascii.eqb c (byte 123) then
            match skip_ws r with
            | String d r' as r0 =>
                if Ascii.eqb d (byte 125) then Some (JObj [], r')
                else parse_members fuel r0 []
            | EmptyString => None
            end
          else if Ascii.eqb c dquote then
            '(str, rest) ← parse_chars r; Some (JStr str, rest)
          else match strip_prefix "null" s', strip_prefix "true" s', strip_prefix "false" s' with
               | Some rest, _, _ => Some (JNull, rest)
               | _, Some rest, _ => Some (JBool true, rest)
               | _, _, Some rest => Some (JBool false, rest)
               | _, _, _ => '(z, rest) ← parse_number s'; Some (JNum z, rest)
               end
      end
  end
with parse_elems (fuel : nat) (s : string) (acc : list json) {struct fuel}
    : option (json * string) :=
  match fuel with
  | 0 => None
  | S fuel =>
      '(v, rest) ← parse_value fuel s;
      match skip_ws rest with
      | String c r =>
          if Ascii.eqb c (byte 44) then parse_elems fuel r (v :: acc)
          else if Ascii.eqb c (byte 93) then Some (JArr (reverse (v :: acc)), r)
          else None
      | EmptyString => None
      end
  end
with parse_members (fuel : nat) (s : string) (acc : list (string * json)) {struct fuel}
    : option (json * string) :=
  match fuel with
  | 0 => None
  | S fuel =>
      match skip_ws s with
      | String q r =>
          if Ascii.eqb q dquote then
            '(key, rest) ← parse_chars r;
            match skip_ws rest with
            | String c r1 =>
                if Ascii.eqb c (byte 58) then
                  '(v, rest1) ← parse_value fuel r1;
                  match skip_ws rest1 with
                  | String d r2 =>
                      if Ascii.eqb d (byte 44) then parse_members fuel r2 ((key, v) :: acc)
                      else if Ascii.eqb d (byte 125)
                      then Some (JObj (reverse ((key, v) :: acc)), r2)
                      else None
                  | EmptyString => None
                  end
                else None
            | EmptyString => None
            end
          else None
      | EmptyString => None
      end
  end.

(** One field of a task object; [null] leaves the field as it is. *)
Definition set_field (t : Task) (kv : string * json) : option Task :=
  let '(k, v) := kv in
  if decide (k = "id") then
    match v with
    | JNum z =>
        if bool_decide (int_min ≤ z ≤ int_max)%Z
        then Some {| ID := z; Title := Title t; Done := Done t; CreatedAt := CreatedAt t |}
        else None
    | JNull => Some t
    | _ => None
    end
  else if decide (k = "title") then
    match v with
    | JStr s => Some {| ID := ID t; Title := s; Done := Done t; CreatedAt := CreatedAt t |}
    | JNull => Some t
    | _ => None
    end
  else if decide (k = "done") then
    match v with
    | JBool b => Some {| ID := ID t; Title := Title t; Done := b; CreatedAt := CreatedAt t |}
    | JNull => Some t
    | _ => None
    end
  else if decide (k = "createdAt") then
    match v with
    | JNum z => Some {| ID := ID t; Title := Title t; Done := Done t; CreatedAt := z |}
    | JNull => Some t
    | _ => None
    end
  else Some t.

Definition task_of_json (j : json) : option Task :=
  match j with
  | JObj fields => foldl (λ ot kv, t ← ot; set_field t kv) (Some zeroTask) fields
  | JNull => Some zeroTask
  | _ => None
  end.

Definition tasks_of_json (j : json) : option (list Task) :=
  match j with
  | JArr l => mapM task_of_json l
  | JNull => Some []
  | _ => None
  end.

(** The decoder reads the first JSON value of the text. *)
Definition Decode (text : string) : option (list Task) :=
  '(j, _) ← parse_value (S (String.length text)) text; tasks_of_json j.

Fixpoint digits_of_pos (fuel : nat) (p : Z) (acc : string) : string :=
  match fuel with
  | 0 => acc
  | S fuel =>
      let acc' := String (byte (48 + Z.to_nat (p `mod` 10))) acc in
      if (p <? 10)%Z then acc' else digits_of_pos fuel (p `div` 10) acc'
  end.

Definition decimal (z : Z) : string :=
  if (z <? 0)%Z then String (byte 45) (digits_of_pos (Z.to_nat (Z.log2 (- z)) + 1) (- z) "")
  else digits_of_pos (Z.to_nat (Z.log2 z) + 1) z "".

Definition hex_char (n : nat) : ascii :=
  if bool_decide (n < 10) then byte (48 + n) else byte (87 + n).

Fixpoint escape (s : string) : string :=
  match s with
  | EmptyString => EmptyString
  | String c r =>
      let n := code c in
      if bool_decide (n = 34) then String backslash (String dquote (escape r))
      else if bool_decide (n = 92) then String backslash (String backslash (escape r))
      else if bool_decide (n = 10) then String backslash (String (byte 110) (escape r))
      else if bool_decide (n = 13) then String backslash (String (byte 114) (escape r))
      else if bool_decide (n = 9) then String backslash (String (byte 116) (escape r))
      else if bool_decide (n < 32) then
        String backslash (String (byte 117) (String (byte 48) (String (byte 48)
          (String (hex_char (n `div` 16)) (String (hex_char (n `mod` 16)) (escape r))))))
      else String c (escape r)
  end.

Definition quoted (s : string) : string :=
  String dquote (escape s +:+ String dquote EmptyString).

Definition encode_task (t : Task) : string :=
  "{" +:+ quoted "id" +:+ ":" +:+ decimal (ID t) +:+ ","
      +:+ quoted "title" +:+ ":" +:+ quoted (Title t) +:+ ","
      +:+ quoted "done" +:+ ":" +:+ (if Done t then "true" else "false") +:+ ","
      +:+ quoted "createdAt" +:+ ":" +:+ decimal (CreatedAt t) +:+ "}".

Fixpoint join_with (sep : string) (l : list string) : string :=
  match l with
  | [] => EmptyString
  | [x] => x
  | x :: rest => x +:+ sep +:+ join_with sep rest
  end.

Definition Encode (ts : list Task) : option string :=
  Some ("[" +:+ join_with "," (encode_task <$> ts) +:+ "]" +:+ String (byte 10) EmptyString).

(** Doubling of small slices, size classes aside. *)
Definition slack (old n : nat) : nat := 2 * old - n.

Definition std : GoStd := {|
  strings_TrimSpace := TrimSpace;
  filepath_Join := Join;
  json_Encode := Encode;
  json_Decode := Decode;
  runtime_slack := slack;
|}.

(** *** Sample data *)

Definition task (id : Z) (title : string) : Task :=
  {| ID := id; Title := title; Done := false; CreatedAt := 0%Z |}.

Definition text_of (ts : list Task) : string := default "" (Encode ts).

(** A file system whose data file under "data" holds the encoding of [ts]. *)
Definition disk (ts : list Task) : FS := {[ "data/tasks.json" := text_of ts ]}.

(** A file system whose data file is not JSON. *)
Definition bad_disk : FS := {[ "data/tasks.json" := "[{" ]}.

Definition empty_store : TaskStore :=
  {| tasks := []; nextID := 1; dataDir := "data" |}.

Definition rename_fails : SaveIO := {| fault := Some RenameFails; removeOK := true |}.

End Ref.

(** ** The codec on titles that are not UTF-8

    encoding/json writes a string as valid UTF-8: each byte that does not
    start a valid sequence is written as U+FFFD, and the decoder does the
    same to what it reads. [Utf8.std] is [Ref.std] with a codec that does
    so. *)
Module Utf8.

(** A continuation byte. *)
Definition cont (b : nat) : bool := bool_decide (128 ≤ b ≤ 191).

(** The first two bytes of a valid three-byte sequence: no overlong form
    and no surrogate. *)
Definition lead3 (a b : nat) : bool :=
  bool_decide ((a = 224 ∧ 160 ≤ b ≤ 191) ∨
               ((225 ≤ a ≤ 236 ∨ 238 ≤ a ≤ 239) ∧ 128 ≤ b ≤ 191) ∨
               (a = 237 ∧ 128 ≤ b ≤ 159)).

(** The first two bytes of a valid four-byte sequence: no overlong form
    and nothing beyond U+10FFFF. *)
Definition lead4 (a b : nat) : bool :=
  bool_decide ((a = 240 ∧ 144 ≤ b ≤ 191) ∨
               (241 ≤ a ≤ 243 ∧ 128 ≤ b ≤ 191) ∨
               (a = 244 ∧ 128 ≤ b ≤ 143)).

(** U+FFFD in UTF-8. *)
Definition replacement : list nat := [239; 191; 189].

(** Keep the valid sequences, replace every other byte by U+FFFD. *)
Fixpoint sanitize (s : list nat) : list nat :=
  match s with
  | [] => []
  | a :: r =>
      if bool_decide (a < 128) then a :: sanitize r
      else
        match r with
        | [] => replacement
        | b :: r2 =>
            if bool_decide (194 ≤ a ≤ 223) && cont b then a :: b :: sanitize r2
            else
              match r2 with
              | [] => replacement ++ sanitize r
              | c :: r3 =>
                  if lead3 a b && cont c then a :: b :: c :: sanitize r3
                  else
                    match r3 with
                    | [] => replacement ++ sanitize r
                    | d :: r4 =>
                        if lead4 a b && cont c && cont d
                        then a :: b :: c :: d :: sanitize r4
                        else replacement ++ sanitize r
                    end
              end
        end
  end.

Definition valid_title (t : Task) : Task :=
  {| ID := ID t; Title := Ref.bytes (sanitize (Ref.to_codes (Title t)));
     Done := Done t; CreatedAt := CreatedAt t |}.

Definition Encode (ts : list Task) : option string := Ref.Encode (valid_title <$> ts).

Definition Decode (text : string) : option (list Task) :=
  (λ ts : list Task, valid_title <$> ts) <$> Ref.Decode text.

Definition std : GoStd := {|
  strings_TrimSpace := Ref.TrimSpace;
  filepath_Join := Ref.Join;
  json_Encode := Encode;
  json_Decode := Decode;
  runtime_slack := Ref.slack;
|}.

End Utf8.

(** ** The HTTP layer of [main]

    The three handlers [main] registers, as functions from a request and the
    store to the store and a response. What the handlers take from the
    standard library beyond [GoStd] is the class [GoNet]; the byte-level
    string functions are written out. *)

Class GoNet := {
  (** [json.Unmarshal] of a request body into [struct{ Title string }]: the
      Title (empty when the field is missing), or [None] on an error *)
  json_Unmarshal_title : string → option string;
  (** [strconv.Atoi] *)
  strconv_Atoi : string → option Z;
}.

(** [strings.CutPrefix]: what follows the prefix, when it is one. *)
Fixpoint cut_prefix (prefix s : string) : option string :=
  match prefix, s with
  | EmptyString, _ => Some s
  | String a p, String b r => if Ascii.eqb a b then cut_prefix p r else None
  | String _ _, EmptyString => None
  end.

Definition strings_HasPrefix (s prefix : string) : bool :=
  bool_decide (is_Some (cut_prefix prefix s)).

Definition strings_TrimPrefix (s prefix : string) : string :=
  default s (cut_prefix prefix s).

(** [strings.Split(s, "/")]: the pieces between the slashes, one more than
    there are slashes. *)
Fixpoint split_slash (s : string) : list string :=
  match s with
  | EmptyString => [EmptyString]
  | String c r =>
      if Ascii.eqb c "/" then EmptyString :: split_slash r
      else match split_slash r with
           | x :: xs => String c x :: xs
           | [] => [String c EmptyString]
           end
  end.

Record Request := mkRequest {
  Method : string;
  Path : string;           (* r.URL.Path *)
  Body : option string;    (* io.ReadAll(r.Body); None when the read fails *)
}.

(** What a handler writes as the body of its response. *)
Inductive Payload :=
  | PText (msg : string)     (* http.Error with a message of main.go *)
  | PError (e : error)       (* http.Error with err.Error() *)
  | PTasks (l : list Task)   (* the JSON of map[string]any{"tasks": l} *)
  | PTask (t : Task)         (* the JSON of a task *)
  | PEmpty.

(** A response: the status, the headers main.go sets itself, and the body;
    or the request handed to the file server of the "web" directory. *)
Inductive Response :=
  | Written (status : nat) (header : list (string * string)) (body : Payload)
  | FileServer.

Definition StatusOK : nat := 200.
Definition StatusCreated : nat := 201.
Definition StatusNoContent : nat := 204.
Definition StatusBadRequest : nat := 400.
Definition StatusNotFound : nat := 404.
Definition StatusMethodNotAllowed : nat := 405.

Definition writeJSON (status : nat) (payload : Payload) : Response :=
  Written status [("Content-Type", "application/json")] payload.

(** [http.Error] on a response whose headers so far are [header]. *)
Definition http_Error (header : list (string * string)) (body : Payload) (code : nat)
    : Response :=
  Written code header body.

(** [http.NotFound] *)
Definition http_NotFound : Response :=
  http_Error [] (PText "404 page not found") StatusNotFound.

Section Handlers.
Context `{GoStd} `{GoNet}.

(** The handler of the pattern "/api/tasks". *)
Definition handleTasks (now : Time) (io : SaveIO) (r : Request)
    (s : TaskStore) (fs : FS) : TaskStore * FS * Response :=
  if decide (Method r = "GET") then
    (s, fs, writeJSON StatusOK (PTasks (List s)))
  else if decide (Method r = "POST") then
    match Body r with
    | None =>
        (s, fs, http_Error [] (PText "failed to read request body") StatusBadRequest)
    | Some body =>
        match json_Unmarshal_title body with
        | None => (s, fs, http_Error [] (PText "invalid json") StatusBadRequest)
        | Some title =>
            let '(s', fs', (t, err)) := Create now io title s fs in
            match err with
            | Some e => (s', fs', http_Error [] (PError e) StatusBadRequest)
            | None => (s', fs', writeJSON StatusCreated (PTask t))
            end
        end
    end
  else
    (s, fs, http_Error [("Allow", "GET, POST")] (PText "method not allowed")
              StatusMethodNotAllowed).

(** The handler of the pattern "/api/tasks/". *)
Definition handleTask (io : SaveIO) (r : Request)
    (s : TaskStore) (fs : FS) : TaskStore * FS * Response :=
  let parts := split_slash (strings_TrimPrefix (Path r) "/api/tasks/") in
  match parts with
  | [] => (s, fs, http_NotFound)
  | part0 :: _ =>
      if decide (part0 = "") then (s, fs, http_NotFound)
      else
        match strconv_Atoi part0 with
        | None => (s, fs, http_Error [] (PText "invalid task id") StatusBadRequest)
        | Some id =>
            if decide (Method r = "PATCH") then
              let '(s', fs', (t, err)) := Toggle io id s fs in
              match err with
              | Some e => (s', fs', http_Error [] (PError e) StatusNotFound)
              | None => (s', fs', writeJSON StatusOK (PTask t))
              end
            else if decide (Method r = "DELETE") then
              let '(s', fs', err) := Delete io id s fs in
              match err with
              | Some e => (s', fs', http_Error [] (PError e) StatusNotFound)
              | None => (s', fs', Written StatusNoContent [] PEmpty)
              end
            else
              (s, fs, http_Error [("Allow", "PATCH, DELETE")]
                        (PText "method not allowed") StatusMethodNotAllowed)
        end
  end.

(** The handler of the pattern "/". *)
Definition handleRoot (r : Request) (s : TaskStore) (fs : FS)
    : TaskStore * FS * Response :=
  if strings_HasPrefix (Path r) "/api/" then (s, fs, http_NotFound)
  else (s, fs, FileServer).

(** The patterns registered on the mux. *)
Inductive Pattern :=
  | PatTasks      (* "/api/tasks" *)
  | PatTask       (* "/api/tasks/" *)
  | PatRoot.      (* "/" *)

(** The handler the mux calls once it has matched a pattern. *)
Definition handle (pat : Pattern) (now : Time) (io : SaveIO) (r : Request)
    (s : TaskStore) (fs : FS) : TaskStore * FS * Response :=
  match pat with
  | PatTasks => handleTasks now io r s fs
  | PatTask => handleTask io r s fs
  | PatRoot => handleRoot r s fs
  end.

(** A client's exchange with the "/api/tasks" handler: the responses to a
    sequence of requests, each with its time and system behaviour. *)
Fixpoint exchange (reqs : list (Time * SaveIO * Request)) (s : TaskStore) (fs : FS)
    : TaskStore * FS * list Response :=
  match reqs with
  | [] => (s, fs, [])
  | (now, io, r) :: rest =>
      let '(s1, fs1, resp) := handleTasks now io r s fs in
      let '(s2, fs2, resps) := exchange rest s1 fs1 in
      (s2, fs2, resp :: resps)
  end.

End Handlers.

Definition status_of (resp : Response) : option nat :=
  match resp with
  | Written status _ _ => Some status
  | FileServer => None
  end.

Definition header_of (resp : Response) : list (string * string) :=
  match resp with
  | Written _ header _ => header
  | FileServer => []
  end.

Definition body_of (resp : Response) : option Payload :=
  match resp with
  | Written _ _ body => Some body
  | FileServer => None
  end.

(** No byte of the string is a slash. *)
Fixpoint no_slash (s : string) : bool :=
  match s with
  | EmptyString => true
  | String c r => negb (Ascii.eqb c "/") && no_slash r
  end.

(** The task a response carries, if its body is one. *)
Definition task_of (resp : Response) : option Task :=
  match resp with
  | Written _ _ (PTask t) => Some t
  | _ => None
  end.

(** The error an operation returned, if any. *)
Definition reply_error (r : Reply) : option error :=
  match r with
  | RTask _ err => err
  | RErr err => err
  end.

(** The Create operations of a list of calls. *)
Definition creates (calls : list (Time * SaveIO * string)) : list Op :=
  (λ c, OpCreate c.1.1 c.1.2 c.2) <$> calls.

(** *** A reference instance of [GoNet] *)
Module RefNet.

(** The value of a "title" member: a string, or nothing for [null]. *)
Definition title_of_member (old : string) (kv : string * Ref.json) : option string :=
  let '(k, v) := kv in
  if decide (k = "title") then
    match v with
    | Ref.JStr t => Some t
    | Ref.JNull => Some old
    | _ => None
    end
  else Some old.

(** The whole body must be one JSON value; an object yields its title, and
    [null] leaves the title empty. *)
Definition Unmarshal_title (body : string) : option string :=
  '(j, rest) ← Ref.parse_value (S (String.length body)) body;
  if decide (Ref.skip_ws rest = "") then
    match j with
    | Ref.JObj members => foldl (λ acc kv, t ← acc; title_of_member t kv) (Some "") members
    | Ref.JNull => Some ""
    | _ => None
    end
  else None.

Fixpoint all_digits (s : string) : bool :=
  match s with
  | EmptyString => true
  | String c r => Ref.is_digit c && all_digits r
  end.

(** Base 10, an optional sign, at least one digit, within [int]. *)
Definition Atoi (s : string) : option Z :=
  let '(neg, digits) :=
    match s with
    | String c r =>
        if Ascii.eqb c "-" then (true, r)
        else if Ascii.eqb c "+" then (false, r)
        else (false, s)
    | EmptyString => (false, s)
    end in
  if decide (digits = "") then None
  else if all_digits digits then
    let z := (Ref.parse_digits 0 digits).1 in
    let z := if neg then (- z)%Z else z in
    if bool_decide (int_min ≤ z ≤ int_max)%Z then Some z else None
  else None.

Definition net : GoNet := {|
  json_Unmarshal_title := Unmarshal_title;
  strconv_Atoi := Atoi;
|}.

(** A request body with the given title. *)
Definition body_with (title : string) : string :=
  "{" +:+ Ref.quoted "title" +:+ ":" +:+ Ref.quoted title +:+ "}".

Definition post (title : string) : Request :=
  {| Method := "POST"; Path := "/api/tasks"; Body := Some (body_with title) |}.

Definition get : Request :=
  {| Method := "GET"; Path := "/api/tasks"; Body := Some "" |}.

Definition three_tasks : TaskStore :=
  {| tasks := [Ref.task 1 "a"; Ref.task 2 "b"; Ref.task 3 "c"];
     nextID := 4; dataDir := "data" |}.

(** The heap and the store [Mem.NewTaskStore] builds over an empty heap and
    an absent data file. *)
Definition heap0 : Mem.heap := [[]].

Definition mstore0 : Mem.MStore :=
  {| Mem.mtasks := {| Mem.ptr := 0; Mem.off := 0; Mem.len := 0 |};
     Mem.mnextID := 1; Mem.mdataDir := "data" |}.

End RefNet.

(** * Properties *)

(** ** Arithmetic of [int] *)

Lemma wrap_in_int z : in_int z → wrap z = z.
Proof.
  unfold in_int, int_min, int_max, wrap. intros Hz.
  rewrite Z.mod_small; lia.
Qed.

Lemma wrap_range z : in_int (wrap z).
Proof.
  unfold in_int, int_min, int_max, wrap.
  pose proof (Z.mod_pos_bound (z + 2 ^ 63) (2 ^ 64)). lia.
Qed.

Lemma wrap_succ_max : wrap (int_max + 1) = int_min.
Proof. reflexivity. Qed.

Section Properties.
Context `{GoStd}.

(** ** The loop of [load] *)

Lemma maxID_loop_lower m l : (m ≤ maxID_loop m l)%Z.
Proof.
  revert m. induction l as [|t l IH]; intros m; simpl; [lia|].
  specialize (IH (if (m <? ID t)%Z then ID t else m)).
  destruct (Z.ltb_spec m (ID t)); lia.
Qed.

Lemma maxID_loop_upper m l t : t ∈ l → (ID t ≤ maxID_loop m l)%Z.
Proof.
  revert m. induction l as [|u l IH]; intros m Hin; [by apply elem_of_nil in Hin|].
  apply elem_of_cons in Hin as [->|Hin]; simpl.
  - pose proof (maxID_loop_lower (if (m <? ID u)%Z then ID u else m) l).
    destruct (Z.ltb_spec m (ID u)); lia.
  - by apply IH.
Qed.

Lemma maxID_loop_attained m l :
  maxID_loop m l = m ∨ ∃ t, t ∈ l ∧ maxID_loop m l = ID t.
Proof.
  revert m. induction l as [|u l IH]; intros m; simpl; [by left|].
  destruct (IH (if (m <? ID u)%Z then ID u else m)) as [Heq|(t & Hin & Heq)].
  - rewrite Heq. destruct (Z.ltb_spec m (ID u)); [right|by left].
    exists u. split; [apply elem_of_cons; by left|done].
  - right. exists t. split; [apply elem_of_cons; by right|done].
Qed.

(** From 0, the loop computes the larger of 0 and the largest id. *)
Lemma maxID_loop_is_max l m :
  is_max m (ID <$> l) → maxID_loop 0 l = Z.max 0 m.
Proof.
  intros [Hin Hle].
  apply list_elem_of_fmap in Hin as (t & -> & Hin).
  pose proof (maxID_loop_lower 0 l) as Hlo.
  pose proof (maxID_loop_upper 0 l t Hin) as Hup.
  destruct (maxID_loop_attained 0 l) as [Heq|(u & Hu & Heq)]; [lia|].
  assert (ID u ≤ ID t)%Z by (apply Hle, list_elem_of_fmap; eauto).
  lia.
Qed.

Lemma next_after_nil : next_after [] = 1%Z.
Proof. reflexivity. Qed.

Lemma next_after_pos l : (1 ≤ next_after l)%Z.
Proof. unfold next_after. destruct (Z.ltb_spec (wrap (maxID_loop 0 l + 1)) 1); lia. Qed.

(** One more than the largest id in [int] arithmetic, and at least 1. *)
Lemma next_after_is_max l m :
  Forall (λ t, in_int (ID t)) l → is_max m (ID <$> l) →
  next_after l = Z.max 1 (wrap (m + 1)).
Proof.
  intros Hty Hmax. unfold next_after. rewrite (maxID_loop_is_max l m Hmax).
  destruct Hmax as [Hin _].
  apply list_elem_of_fmap in Hin as (t & -> & Hin).
  rewrite Forall_forall in Hty. specialize (Hty t Hin).
  destruct (Z.le_gt_cases (ID t) 0) as [Hneg|Hpos].
  - rewrite Z.max_l by lia. change (wrap (0 + 1)) with 1%Z. simpl.
    assert (in_int (ID t + 1)) as Hr
      by (unfold in_int, int_min, int_max in *; lia).
    rewrite (wrap_in_int _ Hr). lia.
  - rewrite Z.max_r by lia.
    destruct (Z.ltb_spec (wrap (ID t + 1)) 1); lia.
Qed.

Lemma next_after_cases l m :
  is_max m (ID <$> l) → (m ≤ int_max)%Z →
  next_after l = if decide (0 ≤ m < int_max)%Z then (m + 1)%Z else 1%Z.
Proof.
  intros Hmax Hle. unfold next_after. rewrite (maxID_loop_is_max l m Hmax).
  destruct (decide (0 ≤ m < int_max)%Z) as [Hin|Hout].
  - rewrite Z.max_r by lia.
    assert (in_int (m + 1)) as Hr by (unfold in_int, int_min, int_max in *; lia).
    rewrite (wrap_in_int _ Hr). destruct (Z.ltb_spec (m + 1) 1); lia.
  - destruct (Z.lt_ge_cases m 0) as [Hneg|Hpos].
    + rewrite Z.max_l by lia. reflexivity.
    + assert (m = int_max) as -> by lia. reflexivity.
Qed.

Lemma load_runs_absent s fs :
  fs !! dataPath s = None → load LoadRuns s fs = (s, None).
Proof. intros Hno. unfold load. by rewrite Hno. Qed.

Lemma load_runs_present s fs text :
  fs !! dataPath s = Some text →
  load LoadRuns s fs =
    match json_Decode text with
    | None => (s, Some ErrDecodeTasksFile)
    | Some loaded =>
        ({| tasks := loaded; nextID := next_after loaded; dataDir := dataDir s |}, None)
    end.
Proof. intros Hfile. unfold load. rewrite Hfile. by destruct (json_Decode text). Qed.

(** ** [save] *)

Lemma save_error_kind io s fs fs' e :
  save io s fs = (fs', Some e) → kind e = PersistenceError.
Proof.
  unfold save. intros Hsave.
  destruct (fault io) as [[]|], (json_Encode (tasks s)); by simplify_eq.
Qed.

(** A save that returns no error has put the encoding of the tasks in the
    data file. *)
Lemma save_success io s fs fs' :
  save io s fs = (fs', None) →
  ∃ text, json_Encode (tasks s) = Some text ∧ fs' !! dataPath s = Some text.
Proof.
  unfold save. intros Hsave.
  destruct (fault io) as [[]|], (json_Encode (tasks s)) as [text|]; simplify_eq.
  exists text. split; [done|]. apply lookup_insert_eq.
Qed.

Lemma save_runs s fs text :
  json_Encode (tasks s) = Some text →
  (save SaveRuns s fs).2 = None.
Proof. intros Henc. unfold save. simpl. by rewrite Henc. Qed.

Lemma save_fault_fails io s fs flt :
  fault io = Some flt → is_Some (save io s fs).2.
Proof.
  intros Hflt. unfold save. rewrite Hflt.
  destruct flt, (json_Encode (tasks s)); simpl; eauto.
Qed.

Lemma NewTaskStore_absent dir fs :
  fs !! filepath_Join dir "tasks.json" = None →
  NewTaskStore LoadRuns dir fs = inl {| tasks := []; nextID := 1; dataDir := dir |}.
Proof. intros Hno. unfold NewTaskStore. by rewrite load_runs_absent. Qed.

Lemma NewTaskStore_present dir fs text loaded :
  fs !! filepath_Join dir "tasks.json" = Some text →
  json_Decode text = Some loaded →
  NewTaskStore LoadRuns dir fs =
    inl {| tasks := loaded; nextID := next_after loaded; dataDir := dir |}.
Proof.
  intros Hfile Hdec. unfold NewTaskStore.
  rewrite (load_runs_present _ _ text) by done. by rewrite Hdec.
Qed.

(** What [NewTaskStore] returns, when it returns a store. *)
Lemma NewTaskStore_inl io dir fs s :
  NewTaskStore io dir fs = inl s →
  dataDir s = dir ∧
  ((tasks s = [] ∧ nextID s = 1%Z) ∨
   (∃ text, fs !! filepath_Join dir "tasks.json" = Some text ∧
            json_Decode text = Some (tasks s) ∧ nextID s = next_after (tasks s))).
Proof.
  unfold NewTaskStore, load, dataPath. simpl. intros Hnew.
  destruct io; simplify_eq.
  destruct (fs !! filepath_Join dir "tasks.json") as [text|] eqn:Hfile; simplify_eq.
  - destruct (json_Decode text) as [loaded|] eqn:Hdec; simplify_eq.
    simpl. split; [done|]. right. by exists text.
  - simpl. split; [done|]. by left.
Qed.

(** ** Create *)

Lemma Create_blank now io title s fs :
  strings_TrimSpace title = "" →
  Create now io title s fs = (s, fs, (zeroTask, Some ErrTitleRequired)).
Proof. intros Hblank. unfold Create. by rewrite Hblank, decide_True. Qed.

Lemma Create_nonblank now io title s fs :
  strings_TrimSpace title ≠ "" →
  Create now io title s fs =
    (appended now title s, (save io (appended now title s) fs).1,
     match (save io (appended now title s) fs).2 with
     | Some err => (zeroTask, Some err)
     | None => ({| ID := nextID s; Title := strings_TrimSpace title;
                   Done := false; CreatedAt := now |}, None)
     end).
Proof.
  intros Hne. unfold Create. rewrite decide_False by done. fold (appended now title s).
  by destruct (save io (appended now title s) fs) as [fs' [err|]].
Qed.

Lemma Create_returns now io title s fs :
  (Create now io title s fs).2.2 = None →
  (Create now io title s fs).2.1 =
    {| ID := nextID s; Title := strings_TrimSpace title; Done := false; CreatedAt := now |}.
Proof.
  destruct (decide (strings_TrimSpace title = "")) as [Hblank|Hne].
  - by rewrite Create_blank.
  - rewrite Create_nonblank by done. simpl.
    by destruct (save io (appended now title s) fs) as [fs' [err|]].
Qed.

End Properties.

Section Sequences.
Context `{GoStd}.

(** ** The search loop *)

Lemma index_of_None id ts : index_of id ts = None ↔ id ∉ ID <$> ts.
Proof.
  induction ts as [|t ts IH]; simpl.
  - split; [intros _; apply not_elem_of_nil|done].
  - rewrite not_elem_of_cons. destruct (decide (ID t = id)) as [Heq|Hne].
    + split; [done|]. intros [Hne _]. by destruct Hne.
    + rewrite fmap_None, IH. split; [intros ?; split; [congruence|done]|by intros [_ ?]].
Qed.

(** The loop stops at the first task that has the id. *)
Lemma index_of_Some id ts i :
  index_of id ts = Some i →
  ∃ l1 t l2, ts = l1 ++ t :: l2 ∧ length l1 = i ∧ ID t = id ∧ id ∉ ID <$> l1.
Proof.
  revert i. induction ts as [|u ts IH]; intros i; simpl; [done|].
  destruct (decide (ID u = id)) as [Heq|Hne].
  - intros [= <-]. exists [], u, ts. split_and!; [done..|apply not_elem_of_nil].
  - intros Hi. apply fmap_Some in Hi as (j & Hj & ->).
    destruct (IH j Hj) as (l1 & t & l2 & -> & Hlen & Hid & Hnot).
    exists (u :: l1), t, l2. simpl. split_and!; [done|by f_equal|done|].
    rewrite not_elem_of_cons. naive_solver.
Qed.

Lemma index_of_is_Some id ts : id ∈ ID <$> ts → is_Some (index_of id ts).
Proof.
  intros Hin. destruct (index_of id ts) eqn:Hidx; [by eexists|].
  by apply index_of_None in Hidx.
Qed.

Lemma take_drop_middle_app (l1 l2 : list Task) t :
  take (length l1) (l1 ++ t :: l2) ++ drop (S (length l1)) (l1 ++ t :: l2) = l1 ++ l2.
Proof.
  rewrite take_app_length. f_equal.
  change (t :: l2) with ([t] ++ l2). rewrite app_assoc.
  by rewrite drop_app_length' by (rewrite length_app; simpl; lia).
Qed.

Lemma alter_middle_app (f : Task → Task) (l1 l2 : list Task) t :
  alter f (length l1) (l1 ++ t :: l2) = l1 ++ f t :: l2.
Proof. rewrite alter_app_r_alt by done. by rewrite Nat.sub_diag. Qed.

Lemma ids_alter_flip (i : nat) (ts : list Task) :
  ID <$> alter flip_done i ts = ID <$> ts.
Proof.
  rewrite (list_fmap_alter ID flip_done id) by (by apply Forall_forall).
  by apply list_alter_id.
Qed.

(** ** One step *)

Lemma step_effect o s fs s' fs' r :
  step o s fs = (s', fs', r) → effect s s' o r.
Proof.
  destruct o as [now io title|io id|io id]; simpl.
  - destruct (decide (strings_TrimSpace title = "")) as [Hblank|Hne].
    + rewrite Create_blank by done. intros [= <- <- <-]. by apply eff_none.
    + rewrite Create_nonblank by done.
      destruct (save io (appended now title s) fs) as [fs1 [err|]]; simpl;
        intros [= <- <- <-]; apply (eff_append _ _ _ _ now title); auto.
  - unfold Toggle. destruct (index_of id (tasks s)) as [i|].
    + destruct (save io _ fs) as [fs1 [err|]]; intros [= <- <- <-];
        by apply (eff_toggle _ _ _ _ i).
    + intros [= <- <- <-]. by apply eff_none.
  - unfold Delete. destruct (index_of id (tasks s)) as [i|].
    + destruct (save io _ fs) as [fs1 err]. intros [= <- <- <-].
      apply (eff_delete _ _ _ _ i); [|done]. by rewrite delete_take_drop.
    + intros [= <- <- <-]. by apply eff_none.
Qed.

(** Below the largest [int] the invariant is kept; at the largest [int] the
    ids are still distinct after the step. *)
Lemma effect_keeps_inv s s' o r :
  effect s s' o r → store_inv s →
  NoDup (ID <$> tasks s') ∧ ((nextID s < int_max)%Z → store_inv s').
Proof.
  intros Heff (Hnd & Hlt & Hint).
  destruct Heff as [-> _|now title -> _|i -> _|i -> _]; simpl.
  - done.
  - unfold store_inv. simpl. rewrite fmap_app. simpl.
    assert (NoDup ((ID <$> tasks s) ++ [nextID s])) as Hnd'.
    { apply NoDup_app. split_and!; [done| |apply NoDup_singleton].
      intros x Hx Hx'. apply list_elem_of_singleton in Hx' as ->.
      rewrite Forall_forall in Hlt. specialize (Hlt _ Hx). lia. }
    split; [done|]. intros Hbelow.
    assert (in_int (nextID s + 1)) as Hr
      by (unfold in_int, int_min, int_max in *; lia).
    rewrite (wrap_in_int _ Hr). split_and!; [done| |done].
    apply Forall_app. split; [|apply Forall_singleton; lia].
    eapply Forall_impl; [exact Hlt|]. simpl. lia.
  - unfold store_inv. simpl. rewrite ids_alter_flip. done.
  - unfold store_inv. simpl. rewrite list_fmap_delete.
    assert (NoDup (delete i (ID <$> tasks s))) as Hnd'
      by (eapply sublist_NoDup; [exact Hnd|apply sublist_delete]).
    split; [done|]. intros _. split_and!; [done| |done].
    rewrite Forall_forall in *. intros x Hx.
    apply Hlt. by eapply list_elem_of_delete_inv.
Qed.

Lemma effect_nextID s s' o r :
  effect s s' o r →
  nextID s' = nextID s ∨ nextID s' = wrap (nextID s + 1).
Proof. intros [-> _|now title -> _|i -> _|i -> _]; simpl; auto. Qed.

Lemma effect_created s s' o r i :
  effect s s' o r → created_id (o, r) = Some i →
  i = nextID s ∧ nextID s' = wrap (nextID s + 1).
Proof.
  intros [-> Hc|now title -> [Hc|Hc]|j -> Hc|j -> Hc] Hi; rewrite Hc in Hi;
    by simplify_eq.
Qed.

(** ** Runs *)

Lemma run_cons_store o ops s fs :
  (run (o :: ops) s fs).1.1 = (run ops (step o s fs).1.1 (step o s fs).1.2).1.1.
Proof.
  cbn [run]. destruct (step o s fs) as [[s1 fs1] r]. cbn [fst snd].
  by destruct (run ops s1 fs1) as [[s2 fs2] tr].
Qed.

Lemma run_cons_trace o ops s fs :
  (run (o :: ops) s fs).2 =
    (o, (step o s fs).2) :: (run ops (step o s fs).1.1 (step o s fs).1.2).2.
Proof.
  cbn [run]. destruct (step o s fs) as [[s1 fs1] r]. cbn [fst snd].
  by destruct (run ops s1 fs1) as [[s2 fs2] tr].
Qed.

Lemma created_ids_cons e tr :
  created_ids (e :: tr) =
    match created_id e with
    | Some i => i :: created_ids tr
    | None => created_ids tr
    end.
Proof. reflexivity. Qed.

(** What one step does to the counter, the ids and the trace, by whether
    it hands out an id. *)
Lemma step_handed o s fs :
  let s1 := (step o s fs).1.1 in
  let r := (step o s fs).2 in
  if consumes o then
    nextID s1 = wrap (nextID s + 1) ∧
    ID <$> tasks s1 = (ID <$> tasks s) ++ [nextID s] ∧
    (created_id (o, r) = None ∨ created_id (o, r) = Some (nextID s))
  else
    nextID s1 = nextID s ∧
    (ID <$> tasks s1) `sublist_of` (ID <$> tasks s) ∧
    created_id (o, r) = None.
Proof.
  cbv zeta. destruct o as [now io title|io id|io id]; simpl.
  - destruct (decide (strings_TrimSpace title = "")) as [Hblank|Hne].
    + rewrite bool_decide_false by (by intros ?).
      rewrite Create_blank by done. simpl. done.
    + rewrite bool_decide_true by done. rewrite Create_nonblank by done.
      destruct (save io (appended now title s) fs) as [fs1 [err|]]; simpl;
        rewrite fmap_app; auto.
  - unfold Toggle. destruct (index_of id (tasks s)) as [i|]; [|done].
    destruct (save io _ fs) as [fs1 [err|]]; simpl; by rewrite ids_alter_flip.
  - unfold Delete. destruct (index_of id (tasks s)) as [i|]; [|done].
    destruct (save io _ fs) as [fs1 err]. simpl.
    rewrite <-delete_take_drop, list_fmap_delete.
    split_and!; [done|apply sublist_delete|done].
Qed.

(** A run that hands out no id creates nothing and keeps distinct ids
    distinct. *)
Lemma run_idle ops s fs :
  handed_out ops = 0 →
  created_ids (run ops s fs).2 = [] ∧
  (NoDup (ID <$> tasks s) → NoDup (ID <$> tasks (run ops s fs).1.1)).
Proof.
  revert s fs. induction ops as [|o ops IH]; intros s fs Hidle; [done|].
  simpl in Hidle. pose proof (step_handed o s fs) as Hstep. cbv zeta in Hstep.
  destruct (consumes o); [lia|]. destruct Hstep as (_ & Hsub & Hnone).
  rewrite run_cons_trace, created_ids_cons, run_cons_store.
  destruct (step o s fs) as [[s1 fs1] r]. cbn [fst snd] in *.
  rewrite Hnone. destruct (IH s1 fs1 Hidle) as [Hcreated Hnd].
  split; [done|]. intros Hdistinct. apply Hnd.
  by eapply sublist_NoDup.
Qed.

Lemma run_keeps_distinct ops s fs :
  store_inv s →
  (nextID s + Z.of_nat (handed_out ops) ≤ int_max + 1)%Z →
  NoDup (ID <$> tasks (run ops s fs).1.1).
Proof.
  revert s fs. induction ops as [|o ops IH]; intros s fs Hinv Hbound.
  - by destruct Hinv.
  - rewrite run_cons_store.
    pose proof (step_handed o s fs) as Hstep. cbv zeta in Hstep.
    simpl in Hbound. destruct Hinv as (Hnd & Hlt & Hint).
    destruct (step o s fs) as [[s1 fs1] r]. cbn [fst snd] in *.
    destruct (consumes o).
    + destruct Hstep as (Hnext & Hids & _).
      assert (NoDup (ID <$> tasks s1)) as Hnd1.
      { rewrite Hids. apply NoDup_app. split_and!; [done| |apply NoDup_singleton].
        intros x Hx Hx'. apply list_elem_of_singleton in Hx' as ->.
        rewrite Forall_forall in Hlt. specialize (Hlt _ Hx). lia. }
      destruct (handed_out ops) as [|k] eqn:Hk.
      { by apply run_idle. }
      assert (in_int (nextID s + 1)) as Hr
        by (unfold in_int, int_min, int_max in *; lia).
      rewrite (wrap_in_int _ Hr) in Hnext.
      rewrite <-Hk in Hbound. apply IH; [|lia].
      split_and!; [done| |by rewrite Hnext].
      rewrite Hids, Hnext. apply Forall_app. split; [|apply Forall_singleton; lia].
      eapply Forall_impl; [exact Hlt|]. simpl. lia.
    + destruct Hstep as (Hnext & Hsub & _).
      apply IH; [|lia]. split_and!.
      * by eapply sublist_NoDup.
      * rewrite Hnext. rewrite Forall_forall in *. intros x Hx.
        apply Hlt. by eapply elem_of_sublist.
      * by rewrite Hnext.
Qed.

Lemma run_created_sorted ops s fs :
  in_int (nextID s) →
  (nextID s + Z.of_nat (handed_out ops) ≤ int_max + 1)%Z →
  StronglySorted Z.lt (created_ids (run ops s fs).2) ∧
  Forall (λ i, (nextID s ≤ i ≤ int_max)%Z) (created_ids (run ops s fs).2).
Proof.
  revert s fs. induction ops as [|o ops IH]; intros s fs Hint Hbound.
  - simpl. split; constructor.
  - rewrite run_cons_trace, created_ids_cons.
    pose proof (step_handed o s fs) as Hstep. cbv zeta in Hstep.
    simpl in Hbound.
    destruct (step o s fs) as [[s1 fs1] r]. cbn [fst snd] in *.
    destruct (consumes o).
    + destruct Hstep as (Hnext & _ & Hcreated).
      destruct (handed_out ops) as [|k] eqn:Hk.
      { destruct (run_idle ops s1 fs1 Hk) as [-> _].
        destruct Hcreated as [-> | ->]; [split; constructor|].
        split; repeat constructor; unfold in_int in *; lia. }
      assert (in_int (nextID s + 1)) as Hr
        by (unfold in_int, int_min, int_max in *; lia).
      rewrite (wrap_in_int _ Hr) in Hnext. rewrite <-Hk in Hbound.
      destruct (IH s1 fs1) as [Hsorted Hall]; [by rewrite Hnext|lia|].
      rewrite Hnext in Hall.
      destruct Hcreated as [-> | ->].
      * split; [done|]. eapply Forall_impl; [exact Hall|]. simpl. lia.
      * split.
        -- apply StronglySorted_cons. split; [|done].
           eapply Forall_impl; [exact Hall|]. simpl. lia.
        -- constructor; [unfold in_int in *; lia|].
           eapply Forall_impl; [exact Hall|]. simpl. lia.
    + destruct Hstep as (Hnext & _ & ->).
      destruct (IH s1 fs1) as [Hsorted Hall]; [by rewrite Hnext|lia|].
      by rewrite Hnext in Hall.
Qed.

(** The store [NewTaskStore] builds satisfies the invariant when the ids it
    loaded are distinct and below the largest [int]. *)
Lemma NewTaskStore_inv io dir fs s :
  NewTaskStore io dir fs = inl s →
  NoDup (ID <$> tasks s) →
  Forall (λ t, (ID t < int_max)%Z) (tasks s) →
  store_inv s.
Proof.
  intros Hnew Hnd Hbelow. unfold store_inv.
  apply NewTaskStore_inl in Hnew as [_ [[Hnil ->]|(text & _ & _ & ->)]].
  - rewrite Hnil. split_and!; [constructor|constructor|done].
  - assert (0 ≤ maxID_loop 0 (tasks s) < int_max)%Z as Hmax.
    { split; [apply maxID_loop_lower|].
      destruct (maxID_loop_attained 0 (tasks s)) as [->|(t & Hin & ->)]; [done|].
      rewrite Forall_forall in Hbelow. by apply Hbelow. }
    assert (in_int (maxID_loop 0 (tasks s) + 1)) as Hr
      by (unfold in_int, int_min, int_max in *; lia).
    assert (next_after (tasks s) = maxID_loop 0 (tasks s) + 1)%Z as ->.
    { unfold next_after. rewrite (wrap_in_int _ Hr).
      destruct (Z.ltb_spec (maxID_loop 0 (tasks s) + 1) 1); lia. }
    split_and!; [done| |done].
    rewrite Forall_forall. intros x Hx.
    apply list_elem_of_fmap in Hx as (t & -> & Hin).
    pose proof (maxID_loop_upper 0 _ _ Hin). lia.
Qed.

(** ** Toggle and Delete *)

Lemma index_of_middle id (l1 l2 : list Task) t :
  id ∉ ID <$> l1 → ID t = id → index_of id (l1 ++ t :: l2) = Some (length l1).
Proof.
  intros Hnot Hid. induction l1 as [|u l1 IH]; simpl.
  - by rewrite decide_True.
  - rewrite fmap_cons, not_elem_of_cons in Hnot. destruct Hnot as [Hne Hnot].
    rewrite decide_False by done. by rewrite IH.
Qed.

Lemma flip_done_twice t : flip_done (flip_done t) = t.
Proof. destruct t. unfold flip_done. simpl. by rewrite negb_involutive. Qed.

Lemma Toggle_missing io id s fs :
  id ∉ ID <$> tasks s →
  Toggle io id s fs = (s, fs, (zeroTask, Some ErrTaskNotFound)).
Proof. intros Hnot. unfold Toggle. by rewrite (proj2 (index_of_None _ _) Hnot). Qed.

Lemma Toggle_found io id s fs l1 t l2 :
  tasks s = l1 ++ t :: l2 → ID t = id → id ∉ ID <$> l1 →
  let s1 := {| tasks := l1 ++ flip_done t :: l2; nextID := nextID s;
               dataDir := dataDir s |} in
  Toggle io id s fs =
    (s1, (save io s1 fs).1,
     match (save io s1 fs).2 with
     | Some err => (zeroTask, Some err)
     | None => (flip_done t, None)
     end).
Proof.
  intros Hts Hid Hnot. simpl. unfold Toggle.
  rewrite Hts, index_of_middle, alter_middle_app by done.
  destruct (save io _ fs) as [fs' [err|]]; simpl; [done|].
  by rewrite list_lookup_total_middle.
Qed.

Lemma Delete_missing io id s fs :
  id ∉ ID <$> tasks s → Delete io id s fs = (s, fs, Some ErrTaskNotFound).
Proof. intros Hnot. unfold Delete. by rewrite (proj2 (index_of_None _ _) Hnot). Qed.

Lemma Delete_found io id s fs l1 t l2 :
  tasks s = l1 ++ t :: l2 → ID t = id → id ∉ ID <$> l1 →
  let s1 := {| tasks := l1 ++ l2; nextID := nextID s; dataDir := dataDir s |} in
  Delete io id s fs = (s1, (save io s1 fs).1, (save io s1 fs).2).
Proof.
  intros Hts Hid Hnot. simpl. unfold Delete.
  rewrite Hts, index_of_middle, take_drop_middle_app by done.
  by destruct (save io _ fs) as [fs' err].
Qed.

End Sequences.

Section Slices.
Context `{GoStd}.

(** ** Backing arrays under allocation and update *)

Lemma heap_total_lookup (h h' : Mem.heap) p :
  h' !! p = h !! p → h' !!! p = h !!! p.
Proof. intros Heq. by rewrite !list_lookup_total_alt, Heq. Qed.

Lemma heap_alloc_old (h : Mem.heap) arr p :
  p < length h → (h ++ [arr]) !! p = h !! p.
Proof. apply lookup_app_l. Qed.

Lemma heap_alloc_new (h : Mem.heap) arr : (h ++ [arr]) !!! length h = arr.
Proof. by rewrite list_lookup_total_middle. Qed.

Lemma heap_alter_other (f : list Task → list Task) (h : Mem.heap) p q :
  p ≠ q → alter f q h !! p = h !! p.
Proof. intros Hne. by apply list_lookup_alter_ne. Qed.

Lemma heap_alter_same (f : list Task → list Task) (h : Mem.heap) p :
  p < length h → alter f p h !!! p = f (h !!! p).
Proof.
  intros Hp. rewrite !list_lookup_total_alt, list_lookup_alter_eq.
  destruct (lookup_lt_is_Some_2 h p Hp) as [arr ->]. done.
Qed.

Lemma elems_length h sl :
  Mem.off sl + Mem.len sl ≤ length (Mem.array h sl) →
  length (Mem.elems h sl) = Mem.len sl.
Proof.
  intros Hwf. unfold Mem.elems. rewrite length_take_le; [done|].
  rewrite length_drop. lia.
Qed.

(** Writing [xs] right after the first [n] elements of a window. *)
Lemma window_write_at (arr xs : list Task) o n :
  o + n + length xs ≤ length arr →
  take (n + length xs) (drop o (Mem.write_at (o + n) xs arr)) =
    take n (drop o arr) ++ xs.
Proof.
  intros Hfit. unfold Mem.write_at.
  rewrite drop_app_le by (rewrite length_take_le; lia).
  rewrite <-take_drop_commute.
  rewrite app_assoc, take_app_length'; [done|].
  rewrite length_app, length_take_le; [done|].
  rewrite length_drop. lia.
Qed.

Lemma write_at_length (arr xs : list Task) o :
  o + length xs ≤ length arr → length (Mem.write_at o xs arr) = length arr.
Proof.
  intros Hfit. unfold Mem.write_at.
  rewrite !length_app, length_take_le, length_drop by lia. lia.
Qed.

(** ** List *)

Lemma mem_List_copy h ms :
  Mem.wf h ms →
  (Mem.List h ms).2 = {| Mem.ptr := length h; Mem.off := 0;
                         Mem.len := Mem.len (Mem.mtasks ms) |} ∧
  (Mem.List h ms).1 = h ++ [Mem.elems h (Mem.mtasks ms)].
Proof.
  intros [Hptr Hfit]. unfold Mem.List, Mem.make, Mem.copy. simpl.
  split; [done|].
  rewrite Nat.min_id.
  assert (Mem.elems (h ++ [replicate (Mem.len (Mem.mtasks ms)) zeroTask])
            (Mem.mtasks ms) = Mem.elems h (Mem.mtasks ms)) as ->.
  { unfold Mem.elems, Mem.array.
    by rewrite (heap_total_lookup h _ _ (heap_alloc_old h _ _ Hptr)). }
  rewrite alter_app_r_alt, Nat.sub_diag by done. simpl. f_equal. f_equal.
  unfold Mem.write_at. simpl.
  rewrite take_ge by (by rewrite elems_length).
  rewrite elems_length by done.
  rewrite drop_replicate, Nat.sub_diag. simpl. apply app_nil_r.
Qed.

(** What a caller does through a slice whose array lies at or beyond
    address [n] leaves the arrays below [n] as they are. *)
Lemma mutate_frame n m h out :
  n ≤ length h → n ≤ Mem.ptr out →
  n ≤ length (Mem.mutate m h out).1 ∧
  n ≤ Mem.ptr (Mem.mutate m h out).2 ∧
  ∀ p, p < n → (Mem.mutate m h out).1 !! p = h !! p.
Proof.
  intros Hn Hout. destruct m as [i t|xs|lo hi]; simpl.
  - unfold Mem.set_index. destruct (decide (i < Mem.len out)); simpl; [|done].
    rewrite length_alter. split_and!; [done..|].
    intros p Hp. apply heap_alter_other. lia.
  - unfold Mem.append. destruct (decide _); simpl.
    + rewrite length_alter. split_and!; [done..|].
      intros p Hp. apply heap_alter_other. lia.
    + rewrite length_app. simpl. split_and!; [lia..|].
      intros p Hp. apply heap_alloc_old. lia.
  - destruct (decide _); simpl; done.
Qed.

Lemma mutate_all_frame n muts h out :
  n ≤ length h → n ≤ Mem.ptr out →
  ∀ p, p < n → (Mem.mutate_all muts h out).1 !! p = h !! p.
Proof.
  revert h out. induction muts as [|m muts IH]; intros h out Hn Hout p Hp; [done|].
  simpl. destruct (mutate_frame n m h out Hn Hout) as (Hn' & Hout' & Hsame).
  destruct (Mem.mutate m h out) as [h1 out1]. simpl in *.
  rewrite IH by done. by apply Hsame.
Qed.

(** The store's view depends on its own backing array only. *)
Lemma view_same_array h h' ms :
  h' !! Mem.ptr (Mem.mtasks ms) = h !! Mem.ptr (Mem.mtasks ms) →
  Mem.view h' ms = Mem.view h ms.
Proof.
  intros Heq. unfold Mem.view, Mem.elems, Mem.array.
  by rewrite (heap_total_lookup _ _ _ Heq).
Qed.

(** ** The slice operations compute the sequence operations *)

Lemma append_elems sl xs h :
  Mem.window_ok h sl →
  Mem.elems (Mem.append sl xs h).1 (Mem.append sl xs h).2 = Mem.elems h sl ++ xs ∧
  Mem.window_ok (Mem.append sl xs h).1 (Mem.append sl xs h).2 ∧
  (∀ p, p < length h → p ≠ Mem.ptr sl → (Mem.append sl xs h).1 !! p = h !! p).
Proof.
  intros [Hptr Hfit]. unfold Mem.append.
  destruct (decide (Mem.len sl + length xs ≤ Mem.cap h sl)) as [Hcap|Hcap]; simpl.
  - unfold Mem.cap in Hcap.
    assert (Mem.array (alter (Mem.write_at (Mem.off sl + Mem.len sl) xs) (Mem.ptr sl) h)
              {| Mem.ptr := Mem.ptr sl; Mem.off := Mem.off sl;
                 Mem.len := Mem.len sl + length xs |}
            = Mem.write_at (Mem.off sl + Mem.len sl) xs (Mem.array h sl)) as Harr
      by (unfold Mem.array; simpl; by rewrite heap_alter_same).
    split_and!.
    + unfold Mem.elems at 1. rewrite Harr. simpl.
      rewrite window_write_at by lia. done.
    + split; simpl; [by rewrite length_alter|].
      rewrite Harr, write_at_length; lia.
    + intros p _ Hne. by apply heap_alter_other.
  - split_and!.
    + unfold Mem.elems at 1, Mem.array. simpl.
      rewrite heap_alloc_new, drop_0, app_assoc.
      apply take_app_length'. rewrite length_app, elems_length by done. done.
    + split; simpl; [rewrite length_app; simpl; lia|].
      unfold Mem.array. simpl. rewrite heap_alloc_new.
      rewrite !length_app, elems_length by done. lia.
    + intros p Hp _. by apply heap_alloc_old.
Qed.

Lemma mem_load_sim io h ms fs :
  let r := Mem.load io h ms fs in
  load io (Mem.view h ms) fs = (Mem.view r.1.1 r.1.2, r.2) ∧
  (Mem.wf h ms → Mem.wf r.1.1 r.1.2).
Proof.
  simpl. unfold Mem.load, load.
  destruct io; simpl; [|done..].
  destruct (fs !! dataPath (Mem.view h ms)) as [text|]; [|done].
  destruct (json_Decode text) as [decoded|]; [|done]. simpl.
  assert (Mem.elems (h ++ [decoded ++ replicate (runtime_slack 0 (length decoded)) zeroTask])
            {| Mem.ptr := length h; Mem.off := 0; Mem.len := length decoded |}
          = decoded) as Helems.
  { unfold Mem.elems, Mem.array. simpl. rewrite heap_alloc_new, drop_0.
    by apply take_app_length'. }
  split.
  - unfold Mem.view. simpl. by rewrite Helems.
  - intros _. split; simpl; [rewrite length_app; simpl; lia|].
    unfold Mem.array. simpl. rewrite heap_alloc_new, length_app. lia.
Qed.

Lemma mem_NewTaskStore_sim io dir h fs :
  match (Mem.NewTaskStore io dir h fs).2 with
  | inl ms =>
      NewTaskStore io dir fs = inl (Mem.view (Mem.NewTaskStore io dir h fs).1 ms) ∧
      Mem.wf (Mem.NewTaskStore io dir h fs).1 ms
  | inr e => NewTaskStore io dir fs = inr e
  end.
Proof.
  unfold Mem.NewTaskStore, NewTaskStore, Mem.make.
  set (ms0 := {| Mem.mtasks := {| Mem.ptr := length h; Mem.off := 0; Mem.len := 0 |};
                 Mem.mnextID := 1; Mem.mdataDir := dir |}).
  set (h0 := h ++ [replicate 0 zeroTask]).
  assert (Mem.wf h0 ms0) as Hwf0.
  { split; simpl; [unfold h0; rewrite length_app; simpl; lia|lia]. }
  destruct (mem_load_sim io h0 ms0 fs) as [Hsim Hwf].
  assert (Mem.view h0 ms0 = {| tasks := []; nextID := 1; dataDir := dir |}) as Hview
    by done.
  rewrite Hview in Hsim. rewrite Hsim.
  destruct (Mem.load io h0 ms0 fs) as [[h1 ms1] [err|]]; simpl in *; [done|].
  split; [done|]. by apply Hwf.
Qed.

Lemma mem_Create_sim now io title h ms fs :
  Mem.wf h ms →
  let r := Mem.Create now io title h ms fs in
  Create now io title (Mem.view h ms) fs = (Mem.view r.1.1.1 r.1.1.2, r.1.2, r.2) ∧
  Mem.wf r.1.1.1 r.1.1.2.
Proof.
  intros Hwf. simpl. unfold Mem.Create.
  destruct (decide (strings_TrimSpace title = "")) as [Hblank|Hne].
  { by rewrite Create_blank. }
  rewrite Create_nonblank by done.
  set (task := {| ID := Mem.mnextID ms; Title := strings_TrimSpace title;
                  Done := false; CreatedAt := now |}).
  destruct (append_elems (Mem.mtasks ms) [task] h Hwf) as (Helems & Hwf1 & _).
  destruct (Mem.append (Mem.mtasks ms) [task] h) as [h1 sl1]. simpl in *.
  set (ms1 := {| Mem.mtasks := sl1; Mem.mnextID := wrap (Mem.mnextID ms + 1);
                 Mem.mdataDir := Mem.mdataDir ms |}).
  assert (Mem.view h1 ms1 = appended now title (Mem.view h ms)) as Hview.
  { unfold Mem.view, appended. simpl. by rewrite Helems. }
  unfold Mem.save. rewrite Hview.
  destruct (save io (appended now title (Mem.view h ms)) fs) as [fs' [err|]];
    simpl; rewrite Hview; by split.
Qed.

Lemma mem_Toggle_sim io id h ms fs :
  Mem.wf h ms →
  let r := Mem.Toggle io id h ms fs in
  Toggle io id (Mem.view h ms) fs = (Mem.view r.1.1.1 r.1.1.2, r.1.2, r.2) ∧
  Mem.wf r.1.1.1 r.1.1.2.
Proof.
  intros [Hptr Hfit]. simpl. unfold Mem.Toggle, Toggle. simpl.
  destruct (index_of id (Mem.elems h (Mem.mtasks ms))) as [i|] eqn:Hidx; [|done].
  assert (i < Mem.len (Mem.mtasks ms)) as Hi.
  { apply index_of_Some in Hidx as (l1 & t & l2 & Hts & Hlen & _).
    rewrite <-(elems_length h (Mem.mtasks ms)), Hts, length_app by done.
    simpl. lia. }
  set (h1 := alter (alter flip_done (Mem.off (Mem.mtasks ms) + i))
               (Mem.ptr (Mem.mtasks ms)) h).
  assert (Mem.array h1 (Mem.mtasks ms)
          = alter flip_done (Mem.off (Mem.mtasks ms) + i) (Mem.array h (Mem.mtasks ms)))
    as Harr by (unfold Mem.array, h1; by rewrite heap_alter_same).
  assert (Mem.elems h1 (Mem.mtasks ms)
          = alter flip_done i (Mem.elems h (Mem.mtasks ms))) as Helems.
  { unfold Mem.elems. rewrite Harr, drop_alter_ge by lia.
    rewrite take_alter_lt by lia. do 2 f_equal. lia. }
  assert (Mem.wf h1 ms) as Hwf1.
  { split; [unfold h1; by rewrite length_alter|].
    by rewrite Harr, length_alter. }
  unfold Mem.save, Mem.view. simpl. rewrite Helems.
  destruct (save io _ fs) as [fs' [err|]]; simpl; rewrite ?Helems; by split.
Qed.

Lemma mem_Delete_sim io id h ms fs :
  Mem.wf h ms →
  let r := Mem.Delete io id h ms fs in
  Delete io id (Mem.view h ms) fs = (Mem.view r.1.1.1 r.1.1.2, r.1.2, r.2) ∧
  Mem.wf r.1.1.1 r.1.1.2.
Proof.
  intros [Hptr Hfit]. simpl. unfold Mem.Delete, Delete. simpl.
  destruct (index_of id (Mem.elems h (Mem.mtasks ms))) as [i|] eqn:Hidx; [|done].
  assert (i < Mem.len (Mem.mtasks ms)) as Hi.
  { apply index_of_Some in Hidx as (l1 & t & l2 & Hts & Hlen & _).
    rewrite <-(elems_length h (Mem.mtasks ms)), Hts, length_app by done.
    simpl. lia. }
  set (sl := Mem.mtasks ms) in *.
  assert (Mem.window_ok h (Mem.sub sl 0 i)) as Hsub
    by (split; simpl; [done|unfold Mem.array in *; simpl; lia]).
  destruct (append_elems (Mem.sub sl 0 i)
              (Mem.elems h (Mem.sub sl (S i) (Mem.len sl))) h Hsub)
    as (Helems & Hwf1 & _).
  destruct (Mem.append (Mem.sub sl 0 i) _ h) as [h1 sl1]. simpl in *.
  assert (Mem.elems h1 sl1 = take i (Mem.elems h sl) ++ drop (S i) (Mem.elems h sl))
    as Hdel.
  { rewrite Helems. unfold Mem.elems, Mem.array, Mem.sub. simpl. f_equal.
    - rewrite Nat.add_0_r, Nat.sub_0_r, take_take. f_equal. lia.
    - rewrite <-drop_drop, take_drop_commute. do 2 f_equal. lia. }
  unfold Mem.save, Mem.view. simpl. rewrite Hdel.
  destruct (save io _ fs) as [fs' err]; simpl; rewrite ?Hdel; by split.
Qed.

Lemma append_moved sl xs h :
  length h ≤ length (Mem.append sl xs h).1 ∧
  (Mem.ptr (Mem.append sl xs h).2 = Mem.ptr sl ∨
   length h ≤ Mem.ptr (Mem.append sl xs h).2).
Proof.
  unfold Mem.append. destruct (decide _); simpl.
  - rewrite length_alter. auto.
  - rewrite length_app. simpl. split; [lia|right; lia].
Qed.

Lemma mem_Create_moved now io title h ms fs :
  let r := Mem.Create now io title h ms fs in Mem.moved h ms r.1.1.1 r.1.1.2.
Proof.
  simpl. unfold Mem.Create, Mem.moved.
  destruct (decide (strings_TrimSpace title = "")); simpl; [auto|].
  pose proof (append_moved (Mem.mtasks ms)
    [{| ID := Mem.mnextID ms; Title := strings_TrimSpace title; Done := false;
        CreatedAt := now |}] h) as Hmoved.
  destruct (Mem.append _ _ h) as [h1 sl1].
  by destruct (Mem.save io h1 _ fs) as [fs' [err|]].
Qed.

Lemma mem_Toggle_moved io id h ms fs :
  let r := Mem.Toggle io id h ms fs in Mem.moved h ms r.1.1.1 r.1.1.2.
Proof.
  simpl. unfold Mem.Toggle, Mem.moved.
  destruct (index_of id _) as [i|]; simpl; [|auto].
  destruct (Mem.save io _ ms fs) as [fs' [err|]]; simpl;
    rewrite length_alter; auto.
Qed.

Lemma mem_Delete_moved io id h ms fs :
  let r := Mem.Delete io id h ms fs in Mem.moved h ms r.1.1.1 r.1.1.2.
Proof.
  simpl. unfold Mem.Delete, Mem.moved.
  destruct (index_of id _) as [i|]; simpl; [|auto].
  pose proof (append_moved (Mem.sub (Mem.mtasks ms) 0 i)
    (Mem.elems h (Mem.sub (Mem.mtasks ms) (S i) (Mem.len (Mem.mtasks ms)))) h)
    as Hmoved.
  destruct (Mem.append _ _ h) as [h1 sl1].
  by destruct (Mem.save io h1 _ fs) as [fs' err].
Qed.

Lemma separated_moved h ms h' ms' outs :
  Mem.wf h ms → Mem.moved h ms h' ms' →
  Mem.separated h ms outs → Mem.separated h' ms' outs.
Proof.
  intros [Hptr _] [Hlen Hwhere] Hsep. unfold Mem.separated in *.
  eapply Forall_impl; [exact Hsep|]. simpl. intros out [Hout Hne]. split; [lia|].
  destruct Hwhere as [->|Hnew]; [done|lia].
Qed.

(** What a caller does through a slice on another array than [p] leaves the
    array at [p] as it is, and the caller's slice stays off [p]. *)
Lemma mutate_separate m h out p :
  p < length h → Mem.ptr out < length h → Mem.ptr out ≠ p →
  (Mem.mutate m h out).1 !! p = h !! p ∧
  length h ≤ length (Mem.mutate m h out).1 ∧
  Mem.ptr (Mem.mutate m h out).2 < length (Mem.mutate m h out).1 ∧
  Mem.ptr (Mem.mutate m h out).2 ≠ p.
Proof.
  intros Hp Hout Hne. destruct m as [i t|xs|lo hi]; simpl.
  - unfold Mem.set_index. destruct (decide (i < Mem.len out)); simpl; [|auto].
    rewrite length_alter. split_and!; [by apply heap_alter_other|done..].
  - unfold Mem.append. destruct (decide _); simpl.
    + rewrite length_alter. split_and!; [by apply heap_alter_other|done..].
    + rewrite length_app. simpl.
      split_and!; [by apply heap_alloc_old|lia..].
  - destruct (decide _); simpl; auto.
Qed.

Lemma wf_same_array h h' ms :
  h' !! Mem.ptr (Mem.mtasks ms) = h !! Mem.ptr (Mem.mtasks ms) →
  Mem.wf h ms → Mem.wf h' ms.
Proof.
  intros Hsame [Hptr Hfit]. split.
  - apply lookup_lt_is_Some. rewrite Hsame. by apply lookup_lt_is_Some.
  - unfold Mem.array in *. by rewrite (heap_total_lookup _ _ _ Hsame).
Qed.

(** In every reachable state of the slice model the store is well formed,
    no slice held by a caller is on the store's array, and the store's view
    is a reachable state of the sequence model. *)
Lemma mem_reachable_sound h ms fs outs :
  Mem.reachable h ms fs outs →
  Mem.wf h ms ∧ Mem.separated h ms outs ∧ reachable (Mem.view h ms) fs.
Proof.
  induction 1 as [io dir h fs h' ms Hnew
                 |now io title h ms fs outs h' ms' fs' r _ (Hwf & Hsep & Hreach) Hop
                 |io id h ms fs outs h' ms' fs' r _ (Hwf & Hsep & Hreach) Hop
                 |io id h ms fs outs h' ms' fs' r _ (Hwf & Hsep & Hreach) Hop
                 |h ms fs outs _ (Hwf & Hsep & Hreach)
                 |m out h ms fs outs _ (Hwf & Hsep & Hreach) Hout].
  - pose proof (mem_NewTaskStore_sim io dir h fs) as Hsim.
    rewrite Hnew in Hsim. simpl in Hsim. destruct Hsim as [Hsim Hwf].
    split_and!; [done|constructor|by eapply reach_new].
  - destruct (mem_Create_sim now io title h ms fs Hwf) as [Hsim Hwf'].
    pose proof (mem_Create_moved now io title h ms fs) as Hmoved.
    rewrite Hop in Hsim, Hwf', Hmoved. simpl in *.
    split_and!; [done|exact (separated_moved h ms h' ms' outs Hwf Hmoved Hsep)|].
    apply (reach_step (OpCreate now io title) _ _ _ _ (RTask r.1 r.2) Hreach).
    simpl. rewrite Hsim. by destruct r.
  - destruct (mem_Toggle_sim io id h ms fs Hwf) as [Hsim Hwf'].
    pose proof (mem_Toggle_moved io id h ms fs) as Hmoved.
    rewrite Hop in Hsim, Hwf', Hmoved. simpl in *.
    split_and!; [done|exact (separated_moved h ms h' ms' outs Hwf Hmoved Hsep)|].
    apply (reach_step (OpToggle io id) _ _ _ _ (RTask r.1 r.2) Hreach).
    simpl. rewrite Hsim. by destruct r.
  - destruct (mem_Delete_sim io id h ms fs Hwf) as [Hsim Hwf'].
    pose proof (mem_Delete_moved io id h ms fs) as Hmoved.
    rewrite Hop in Hsim, Hwf', Hmoved. simpl in *.
    split_and!; [done|exact (separated_moved h ms h' ms' outs Hwf Hmoved Hsep)|].
    apply (reach_step (OpDelete io id) _ _ _ _ (RErr r) Hreach).
    simpl. by rewrite Hsim.
  - destruct (mem_List_copy h ms Hwf) as [-> ->].
    assert ((h ++ [Mem.elems h (Mem.mtasks ms)]) !! Mem.ptr (Mem.mtasks ms)
            = h !! Mem.ptr (Mem.mtasks ms)) as Hsame
      by (destruct Hwf; by apply heap_alloc_old).
    split_and!.
    + by eapply wf_same_array.
    + destruct Hwf as [Hptr _]. constructor; simpl.
      * rewrite length_app. simpl. lia.
      * eapply Forall_impl; [exact Hsep|]. simpl.
        intros out [Hlt Hne]. rewrite length_app. simpl. lia.
    + by rewrite (view_same_array h).
  - unfold Mem.separated in Hsep. rewrite Forall_forall in Hsep.
    destruct (Hsep out Hout) as [Hlt Hne].
    destruct (mutate_separate m h out (Mem.ptr (Mem.mtasks ms)))
      as (Hsame & Hlen & Hlt' & Hne'); [by destruct Hwf|done|done|].
    split_and!.
    + by eapply wf_same_array.
    + constructor; [done|]. apply Forall_forall. intros out' Hin.
      destruct (Hsep out' Hin). split; [lia|done].
    + by rewrite (view_same_array h).
Qed.

End Slices.

Section Claims.
Context `{GoStd}.

(** C3. Create trims the title with strings.TrimSpace and returns a
    validation error exactly when the trimmed title is empty; every other
    error it returns is a persistence error; when it returns no error the task
    it returns has the trimmed title, done = false, the creation time, and the
    store's current nextID as id, so that the first Create on the store built
    over an absent data file returns id 1. *)
Theorem Create_validates_title now io title s fs :
  let r := Create now io title s fs in
  (kind <$> r.2.2 = Some ValidationError ↔ strings_TrimSpace title = "") ∧
  (∀ e, r.2.2 = Some e → e = ErrTitleRequired ∨ kind e = PersistenceError) ∧
  (r.2.2 = None →
     r.2.1 = {| ID := nextID s; Title := strings_TrimSpace title;
                Done := false; CreatedAt := now |}) ∧
  (∀ dir s0, fs !! filepath_Join dir "tasks.json" = None →
     NewTaskStore LoadRuns dir fs = inl s0 →
     (Create now io title s0 fs).2.2 = None →
     ID (Create now io title s0 fs).2.1 = 1%Z).
Proof.
  simpl. split_and!.
  - destruct (decide (strings_TrimSpace title = "")) as [Hblank|Hne].
    + by rewrite Create_blank.
    + rewrite Create_nonblank by done. simpl.
      destruct (save io (appended now title s) fs) as [fs' [err|]] eqn:Hsave; simpl.
      * split; [|done]. intros [=Hk].
        by rewrite (save_error_kind _ _ _ _ _ Hsave) in Hk.
      * done.
  - intros e. destruct (decide (strings_TrimSpace title = "")) as [Hblank|Hne].
    + rewrite Create_blank by done. simpl. intros [= <-]. by left.
    + rewrite Create_nonblank by done. simpl.
      destruct (save io (appended now title s) fs) as [fs' [err|]] eqn:Hsave; simpl;
        [|done].
      intros [= <-]. right. by eapply save_error_kind.
  - apply Create_returns.
  - intros dir s0 Hno Hnew Hok. rewrite NewTaskStore_absent in Hnew by done.
    simplify_eq. by rewrite (Create_returns _ _ _ _ _ Hok).
Qed.

(** C4. For a title that is not blank, Create returns exactly the error of
    its save, on the store it has already changed. The save fails exactly when
    a system call fails or the tasks cannot be encoded, and its error is a
    persistence error; Create then returns that error with the zero Task, and
    the mutation stays: the new task is the last element of the sequence,
    nextID has been incremented, and List shows the task. *)
Theorem Create_persist_error_keeps_task now io title s fs :
  strings_TrimSpace title ≠ "" →
  let task := {| ID := nextID s; Title := strings_TrimSpace title;
                 Done := false; CreatedAt := now |} in
  let s1 := {| tasks := tasks s ++ [task]; nextID := wrap (nextID s + 1);
               dataDir := dataDir s |} in
  (is_Some (save io s1 fs).2 ↔ is_Some (fault io) ∨ json_Encode (tasks s1) = None) ∧
  (∀ e, (save io s1 fs).2 = Some e →
     kind e = PersistenceError ∧
     Create now io title s fs = (s1, (save io s1 fs).1, (zeroTask, Some e)) ∧
     tasks (Create now io title s fs).1.1 = tasks s ++ [task] ∧
     nextID (Create now io title s fs).1.1 = wrap (nextID s + 1) ∧
     List (Create now io title s fs).1.1 = List s ++ [task]) ∧
  (Create now io title s fs).2.2 = (save io s1 fs).2.
Proof.
  intros Hne. cbv zeta. rewrite Create_nonblank by done. unfold appended.
  set (s1 := {| tasks := tasks s ++ _; nextID := _; dataDir := _ |}).
  split_and!.
  - split.
    + intros [e He]. unfold save in He.
      destruct (fault io) as [flt|]; [left; by eexists|].
      destruct (json_Encode (tasks s1)); [done|by right].
    + intros [[flt Hflt]|Henc]; [by eapply save_fault_fails|].
      unfold save. rewrite Henc. destruct (fault io) as [[]|]; simpl; by eexists.
  - intros e He. split; [|by rewrite He].
    destruct (save io s1 fs) as [fs' err] eqn:Hsave. simpl in He. subst err.
    by eapply save_error_kind.
  - by destruct (save io s1 fs) as [fs' [err|]].
Qed.

(** C10. A title that trims to the empty string leaves everything as it
    was: same task sequence, same nextID, and the same file system whatever
    the system calls would have done, so no save was attempted. *)
Theorem Create_blank_title_is_atomic now io title s fs :
  strings_TrimSpace title = "" →
  Create now io title s fs = (s, fs, (zeroTask, Some ErrTitleRequired)).
Proof. apply Create_blank. Qed.

(** C6, amended. Over an absent data file NewTaskStore yields the empty
    sequence and nextID = 1. Over a present file that decodes, it yields the
    decoded sequence and a nextID that is at least 1: 1 for the empty
    sequence, one more than the largest decoded id when that id is at least 0
    and below the largest int, and 1 when it is negative or is the largest
    int (the larger of 1 and the sum taken in int); ids 3, 7, 2 give 8. Over
    a present file that does not decode it fails with a persistence error. *)
Theorem load_recomputes_nextID dir fs :
  let path := filepath_Join dir "tasks.json" in
  (fs !! path = None →
     NewTaskStore LoadRuns dir fs = inl {| tasks := []; nextID := 1; dataDir := dir |}) ∧
  (∀ text loaded, fs !! path = Some text → json_Decode text = Some loaded →
     ∃ s, NewTaskStore LoadRuns dir fs = inl s ∧ tasks s = loaded ∧
       (1 ≤ nextID s)%Z ∧
       (loaded = [] → nextID s = 1%Z) ∧
       (∀ m, Forall (λ t, in_int (ID t)) loaded → is_max m (ID <$> loaded) →
          nextID s = Z.max 1 (wrap (m + 1))) ∧
       (∀ m, is_max m (ID <$> loaded) → (m ≤ int_max)%Z →
          nextID s = if decide (0 ≤ m < int_max)%Z then (m + 1)%Z else 1%Z) ∧
       (ID <$> loaded = [3; 7; 2]%Z → nextID s = 8%Z)) ∧
  (∀ text, fs !! path = Some text → json_Decode text = None →
     ∃ e, NewTaskStore LoadRuns dir fs = inr e ∧ kind e = PersistenceError).
Proof.
  simpl. split_and!.
  - apply NewTaskStore_absent.
  - intros text loaded Hfile Hdec. eexists. split; [by eapply NewTaskStore_present|].
    simpl. split_and!; [done|apply next_after_pos|by intros ->| | |].
    + intros m Hty Hmax. by apply next_after_is_max.
    + intros m Hmax Hle. by apply next_after_cases.
    + intros Hids. destruct loaded as [|[i1 ? ? ?] [|[i2 ? ? ?] [|[i3 ? ? ?] [|]]]];
        simplify_eq/=. reflexivity.
  - intros text Hfile Hdec. exists ErrDecodeTasksFile. split; [|done].
    unfold NewTaskStore. rewrite (load_runs_present _ _ text) by done.
    by rewrite Hdec.
Qed.


(** C1, amended. In a run of Create, Toggle and Delete operations that keeps
    every id it hands out within int (one id goes to each Create whose
    trimmed title is not empty, so nextID plus the number of those Creates is
    at most the largest int plus one), the ids of the Create calls that
    returned no error are strictly increasing in call order, none occurs
    twice, whatever was deleted in between, and none is below the nextID the
    run started from. *)
Theorem created_ids_increase ops s fs :
  in_int (nextID s) →
  (nextID s + Z.of_nat (handed_out ops) ≤ int_max + 1)%Z →
  let ids := created_ids (run ops s fs).2 in
  StronglySorted Z.lt ids ∧ NoDup ids ∧ Forall (λ i, (nextID s ≤ i)%Z) ids.
Proof.
  intros Hint Hbound. simpl.
  destruct (run_created_sorted ops s fs Hint Hbound) as [Hsorted Hall].
  split_and!; [done| |].
  - clear Hall. induction Hsorted as [|i l _ IH Hlt]; constructor; [|done].
    intros Hin. rewrite Forall_forall in Hlt. specialize (Hlt _ Hin). lia.
  - eapply Forall_impl; [exact Hall|]. simpl. lia.
Qed.

(** C5, amended. When the store NewTaskStore returns (the decoded data file,
    or the empty sequence for an absent file) has distinct ids, all below the
    largest int, then after every run of Create, Toggle and Delete operations
    that keeps the ids it hands out within int (nextID plus the number of
    Creates with a non-empty trimmed title is at most the largest int plus
    one), all task ids in the store are distinct. *)
Theorem ids_stay_distinct io dir fs0 s0 ops :
  NewTaskStore io dir fs0 = inl s0 →
  NoDup (ID <$> tasks s0) →
  Forall (λ t, (ID t < int_max)%Z) (tasks s0) →
  (nextID s0 + Z.of_nat (handed_out ops) ≤ int_max + 1)%Z →
  NoDup (ID <$> tasks (run ops s0 fs0).1.1).
Proof.
  intros Hnew Hnd Hbelow Hbound.
  apply run_keeps_distinct; [|done]. by eapply NewTaskStore_inv.
Qed.

(** C8, amended. Delete fails with a not-found error, changing nothing,
    when no task has the id. Otherwise it removes the first task that has the
    id and keeps the other tasks in their order, and the only error it can
    return is a persistence error. When the ids of the store are distinct, a
    Toggle of the same id after such a Delete fails with a not-found error. *)
Theorem Delete_removes_task io id s fs :
  let r := Delete io id s fs in
  (id ∉ ID <$> tasks s →
     r = (s, fs, Some ErrTaskNotFound) ∧ kind ErrTaskNotFound = NotFoundError) ∧
  (id ∈ ID <$> tasks s →
     ∃ l1 t l2, tasks s = l1 ++ t :: l2 ∧ ID t = id ∧ (id ∉ ID <$> l1) ∧
       tasks r.1.1 = l1 ++ l2 ∧
       nextID r.1.1 = nextID s ∧
       (∀ e, r.2 = Some e → kind e = PersistenceError) ∧
       (NoDup (ID <$> tasks s) →
          ∀ io', (Toggle io' id r.1.1 r.1.2).2.2 = Some ErrTaskNotFound)).
Proof.
  simpl. split.
  - intros Hnot. by rewrite Delete_missing.
  - intros Hin. apply index_of_is_Some in Hin as [i Hi].
    apply index_of_Some in Hi as (l1 & t & l2 & Hts & _ & Hid & Hnot).
    exists l1, t, l2. rewrite (Delete_found io id s fs l1 t l2) by done. simpl.
    split_and!; [done..| |].
    + intros e He. destruct (save io _ fs) as [fs' err] eqn:Hsave.
      simpl in He. subst err. by eapply save_error_kind.
    + intros Hnd io'. rewrite Toggle_missing; [done|]. simpl.
      rewrite Hts, fmap_app, fmap_cons, Hid in Hnd.
      apply NoDup_app in Hnd as (_ & _ & Hnd). apply NoDup_cons in Hnd as [Hl2 _].
      rewrite fmap_app, elem_of_app. by intros [?|?].
Qed.

(** C9. When some task has the id, Toggle changes the first such task and
    nothing else: that task keeps its id, title and creation time and gets
    the opposite done flag, every other task and nextID stay as they were,
    and the flipped task is returned when the save works. A second Toggle of
    the same id restores the original sequence. *)
Theorem Toggle_flips_done io id s fs :
  id ∈ ID <$> tasks s →
  let r := Toggle io id s fs in
  ∃ l1 t l2, tasks s = l1 ++ t :: l2 ∧ ID t = id ∧ (id ∉ ID <$> l1) ∧
    let t' := {| ID := ID t; Title := Title t; Done := negb (Done t);
                 CreatedAt := CreatedAt t |} in
    tasks r.1.1 = l1 ++ t' :: l2 ∧
    nextID r.1.1 = nextID s ∧
    dataDir r.1.1 = dataDir s ∧
    (r.2.2 = None → r.2.1 = t') ∧
    (∀ io', let r' := Toggle io' id r.1.1 r.1.2 in
       tasks r'.1.1 = tasks s ∧ nextID r'.1.1 = nextID s ∧
       (r'.2.2 = None → r'.2.1 = t)).
Proof.
  intros Hin. simpl. apply index_of_is_Some in Hin as [i Hi].
  apply index_of_Some in Hi as (l1 & t & l2 & Hts & _ & Hid & Hnot).
  exists l1, t, l2. rewrite (Toggle_found io id s fs l1 t l2) by done. simpl.
  fold (flip_done t). split_and!; [done..| |].
  - by destruct (save io _ fs) as [fs' [err|]].
  - intros io'.
    rewrite (Toggle_found io' id _ _ l1 (flip_done t) l2) by done. simpl.
    rewrite flip_done_twice. split_and!; [done..|].
    by destruct (save io' _ _) as [fs' [err|]].
Qed.

(** C7. For every store whose slice is a window on an allocated array, List
    returns a slice over a newly allocated array that holds all tasks of the
    store in their order; it is a total function with no error result; it
    leaves the store and every array allocated before the call as they were;
    and whatever the caller then does with the returned slice (assign to its
    elements, append to it, reslice it) leaves the store's state as it was. *)
Theorem List_returns_private_copy h ms :
  Mem.wf h ms →
  let h' := (Mem.List h ms).1 in
  let out := (Mem.List h ms).2 in
  Mem.elems h' out = List (Mem.view h ms) ∧
  Mem.view h' ms = Mem.view h ms ∧
  (∀ p, p < length h → h' !! p = h !! p) ∧
  Mem.ptr out ≠ Mem.ptr (Mem.mtasks ms) ∧
  (∀ muts, Mem.view (Mem.mutate_all muts h' out).1 ms = Mem.view h ms).
Proof.
  intros Hwf. cbv zeta. destruct (mem_List_copy h ms Hwf) as [-> ->].
  destruct Hwf as [Hptr Hfit].
  split_and!.
  - unfold Mem.elems at 1, Mem.array. simpl.
    rewrite heap_alloc_new, drop_0. apply take_ge.
    by rewrite elems_length.
  - apply view_same_array. by apply heap_alloc_old.
  - intros p Hp. by apply heap_alloc_old.
  - simpl. lia.
  - intros muts. apply view_same_array.
    rewrite (mutate_all_frame (length h)); [by apply heap_alloc_old| |done|done].
    rewrite length_app. simpl. lia.
Qed.

End Claims.

(** * Further properties of the store *)

Lemma wrap_wrap_add a b : wrap (wrap a + b) = wrap (a + b).
Proof.
  unfold wrap. f_equal.
  replace (((a + 2 ^ 63) `mod` 2 ^ 64 - 2 ^ 63 + b + 2 ^ 63))%Z
    with (((a + 2 ^ 63) `mod` 2 ^ 64 + b))%Z by lia.
  rewrite Zplus_mod_idemp_l. f_equal. lia.
Qed.

Lemma append_tmp_ne (path : string) : path +:+ ".tmp" ≠ path.
Proof.
  induction path as [|c path IH]; [done|].
  intros Heq. apply IH. by injection Heq.
Qed.

Section StoreFacts.
Context `{GoStd}.

(** X1. [save] writes nowhere but to the data file and to its ".tmp"
    sibling, and when it returns an error the data file is what it was: the
    new content replaces the old one only through the final rename. *)
Theorem save_replaces_atomically io s fs :
  (∀ path, path ≠ dataPath s → path ≠ dataPath s +:+ ".tmp" →
     (save io s fs).1 !! path = fs !! path) ∧
  (is_Some (save io s fs).2 → (save io s fs).1 !! dataPath s = fs !! dataPath s).
Proof.
  pose proof (append_tmp_ne (dataPath s)) as Htmp.
  unfold save, remove_tmp. split.
  - intros path Hdata Hne.
    destruct (fault io) as [[]|], (json_Encode (tasks s)), (removeOK io); simpl;
      rewrite ?lookup_insert_ne, ?lookup_delete_ne, ?lookup_insert_ne by done;
      done.
  - intros [e He]. revert He.
    destruct (fault io) as [[]|], (json_Encode (tasks s)), (removeOK io); simpl;
      intros He; simplify_eq;
      rewrite ?lookup_delete_ne, ?lookup_insert_ne by done;
      rewrite ?lookup_delete_ne, ?lookup_insert_ne by done; done.
Qed.

(** X2. After a [save] that returned no error, and after a failed one that
    got past creating the temporary file and whose cleanup worked, no
    temporary file is left. *)
Theorem save_leaves_no_temp_file io s fs :
  (save io s fs).2 = None ∨ (fault io ≠ Some CreateFails ∧ removeOK io = true) →
  (save io s fs).1 !! (dataPath s +:+ ".tmp") = None.
Proof.
  pose proof (append_tmp_ne (dataPath s)) as Htmp.
  unfold save, remove_tmp.
  intros [Hok|[Hcreate Hremove]].
  - revert Hok.
    destruct (fault io) as [[]|], (json_Encode (tasks s)), (removeOK io); simpl;
      intros Hok; simplify_eq;
      by rewrite lookup_insert_ne, lookup_delete_eq by done.
  - rewrite Hremove.
    destruct (fault io) as [[]|], (json_Encode (tasks s)); simpl;
      try done; try apply lookup_delete_eq.
    all: by rewrite lookup_insert_ne, lookup_delete_eq by done.
Qed.

Lemma step_dataDir o s fs : dataDir (step o s fs).1.1 = dataDir s.
Proof.
  destruct (step o s fs) as [[s' fs'] r] eqn:Hstep. simpl.
  apply step_effect in Hstep.
  by destruct Hstep as [-> _|now title -> _|i -> _|i -> _].
Qed.

(** X3. An operation that returns no error has saved the store: the data
    file holds the encoding of the task sequence the store has afterwards. *)
Theorem success_means_saved o s fs :
  reply_error (step o s fs).2 = None →
  ∃ text, json_Encode (tasks (step o s fs).1.1) = Some text ∧
          (step o s fs).1.2 !! dataPath (step o s fs).1.1 = Some text.
Proof.
  destruct o as [now io title|io id|io id]; simpl.
  - destruct (decide (strings_TrimSpace title = "")) as [Hblank|Hne].
    + by rewrite Create_blank.
    + rewrite Create_nonblank by done. simpl.
      destruct (save io (appended now title s) fs) as [fs' [err|]] eqn:Hsave;
        simpl; [done|]. intros _. by apply save_success in Hsave.
  - unfold Toggle. destruct (index_of id (tasks s)) as [i|]; simpl; [|done].
    destruct (save io _ fs) as [fs' [err|]] eqn:Hsave; simpl; [done|].
    intros _. by apply save_success in Hsave.
  - unfold Delete. destruct (index_of id (tasks s)) as [i|]; simpl; [|done].
    destruct (save io _ fs) as [fs' [err|]] eqn:Hsave; simpl; [done|].
    intros _. by apply save_success in Hsave.
Qed.

(** X4. A restart cannot move the counter forward, and it moves it back
    exactly when the last id handed out is no longer in the store: for a
    store whose ids are below its nextID, a positive int, the store that
    NewTaskStore builds from a data file that decodes to the same tasks has a
    nextID that is at most the old one, and equal to it if and only if the
    old one is 1 or some task still has the id just below it. *)
Theorem restart_forgets_deleted_ids dir fs text s :
  fs !! filepath_Join dir "tasks.json" = Some text →
  json_Decode text = Some (tasks s) →
  Forall (λ t, (ID t < nextID s)%Z) (tasks s) →
  (1 ≤ nextID s ≤ int_max)%Z →
  ∃ s', NewTaskStore LoadRuns dir fs = inl s' ∧
    tasks s' = tasks s ∧
    (nextID s' ≤ nextID s)%Z ∧
    (nextID s' = nextID s ↔ nextID s = 1%Z ∨ (nextID s - 1)%Z ∈ ID <$> tasks s).
Proof.
  intros Hfile Hdec Hlt Hpos.
  eexists. split; [by eapply NewTaskStore_present|].
  simpl. split; [done|].
  rewrite Forall_forall in Hlt.
  pose proof (maxID_loop_lower 0 (tasks s)) as Hlo.
  assert (maxID_loop 0 (tasks s) < nextID s)%Z as Hup.
  { destruct (maxID_loop_attained 0 (tasks s)) as [->|(t & Hin & ->)]; [lia|].
    by apply Hlt. }
  assert (in_int (maxID_loop 0 (tasks s) + 1)) as Hr
    by (unfold in_int, int_min, int_max in *; lia).
  assert (next_after (tasks s) = maxID_loop 0 (tasks s) + 1)%Z as ->.
  { unfold next_after. rewrite (wrap_in_int _ Hr).
    destruct (Z.ltb_spec (maxID_loop 0 (tasks s) + 1) 1); lia. }
  split; [lia|]. split.
  - intros Heq.
    destruct (maxID_loop_attained 0 (tasks s)) as [H0|(t & Hin & Ht)]; [left; lia|].
    right. replace (nextID s - 1)%Z with (ID t) by lia.
    apply list_elem_of_fmap. eauto.
  - intros [H1|Hin]; [lia|].
    apply list_elem_of_fmap in Hin as (t & Ht & Hin).
    pose proof (maxID_loop_upper 0 _ _ Hin). lia.
Qed.

(** X5. A run of Create calls appends one task for each call whose title is
    not blank after trimming, in call order and whether or not its save
    worked: the old tasks stay in front, the new titles are the trimmed
    non-blank titles in order, every new task is not done, and the new ids
    count up from nextID in int arithmetic. *)
Theorem Creates_append_in_order calls s fs :
  in_int (nextID s) →
  ∃ new, tasks (run (creates calls) s fs).1.1 = tasks s ++ new ∧
    Title <$> new = filter (λ t, t ≠ "") (strings_TrimSpace <$> (snd <$> calls)) ∧
    Forall (λ t, Done t = false) new ∧
    ID <$> new = (λ i, wrap (nextID s + Z.of_nat i)) <$> seq 0 (length new) ∧
    nextID (run (creates calls) s fs).1.1 = wrap (nextID s + Z.of_nat (length new)).
Proof.
  revert s fs. induction calls as [|[[now io] title] calls IH]; intros s fs Hint.
  - exists []. simpl. rewrite app_nil_r, Z.add_0_r, (wrap_in_int _ Hint).
    split_and!; done.
  - unfold creates. rewrite fmap_cons. fold (creates calls).
    rewrite run_cons_store. cbn [fst snd step].
    destruct (decide (strings_TrimSpace title = "")) as [Hblank|Hne].
    + rewrite Create_blank by done. cbn [fst snd].
      destruct (IH s fs Hint) as (new & Hts & Htitles & Hdone & Hids & Hnext).
      exists new. split_and!; [done| |done..].
      rewrite !fmap_cons. cbn [snd]. by rewrite filter_cons_False by naive_solver.
    + rewrite Create_nonblank by done.
      destruct (save io (appended now title s) fs) as [fs1 err] eqn:Hsave.
      assert ((let '(s', fs', (t, err0)) :=
                 (appended now title s, (fs1, err).1,
                  match (fs1, err).2 with
                  | Some err0 => (zeroTask, Some err0)
                  | None => ({| ID := nextID s; Title := strings_TrimSpace title;
                                Done := false; CreatedAt := now |}, None)
                  end) in (s', fs', RTask t err0)).1
              = (appended now title s, fs1)) as -> by (by destruct err).
      cbn [fst snd].
      destruct (IH (appended now title s) fs1 (wrap_range _))
        as (new & Hts & Htitles & Hdone & Hids & Hnext).
      exists ({| ID := nextID s; Title := strings_TrimSpace title; Done := false;
                 CreatedAt := now |} :: new).
      simpl in Hts, Hids, Hnext. split_and!.
      * rewrite Hts. by rewrite <-app_assoc.
      * rewrite !fmap_cons. cbn [snd Title].
        rewrite filter_cons_True by done. by rewrite Htitles.
      * by constructor.
      * cbn [length]. rewrite <-cons_seq, <-fmap_S_seq, !fmap_cons, <-list_fmap_compose.
        cbn [ID]. rewrite Z.add_0_r, (wrap_in_int _ Hint). f_equal.
        rewrite Hids. apply list_fmap_ext. intros _ i _. simpl.
        rewrite wrap_wrap_add. f_equal. lia.
      * rewrite Hnext. cbn [length]. rewrite wrap_wrap_add. f_equal. lia.
Qed.

(** X6. Toggle and Delete return the not-found error exactly when no task
    has the id, and then they change neither the store nor any file: no save
    is attempted. *)
Theorem NotFound_iff_absent io id s fs :
  ((Toggle io id s fs).2.2 = Some ErrTaskNotFound ↔ id ∉ ID <$> tasks s) ∧
  ((Delete io id s fs).2 = Some ErrTaskNotFound ↔ id ∉ ID <$> tasks s) ∧
  (id ∉ ID <$> tasks s →
     Toggle io id s fs = (s, fs, (zeroTask, Some ErrTaskNotFound)) ∧
     Delete io id s fs = (s, fs, Some ErrTaskNotFound)).
Proof.
  split_and!.
  - split; [|intros Hnot; by rewrite Toggle_missing].
    intros Herr Hnot. revert Herr.
    apply index_of_is_Some in Hnot as [i Hi].
    apply index_of_Some in Hi as (l1 & t & l2 & Hts & _ & Hid & Hl1).
    rewrite (Toggle_found io id s fs l1 t l2) by done. simpl.
    destruct (save io _ fs) as [fs' [err|]] eqn:Hsave; simpl; [|done].
    intros [= ->]. by apply save_error_kind in Hsave.
  - split; [|intros Hnot; by rewrite Delete_missing].
    intros Herr Hnot. revert Herr.
    apply index_of_is_Some in Hnot as [i Hi].
    apply index_of_Some in Hi as (l1 & t & l2 & Hts & _ & Hid & Hl1).
    rewrite (Delete_found io id s fs l1 t l2) by done. simpl.
    destruct (save io _ fs) as [fs' [err|]] eqn:Hsave; simpl; [|done].
    intros [= ->]. by apply save_error_kind in Hsave.
  - intros Hnot. by rewrite Toggle_missing, Delete_missing.
Qed.

(** X17. When startup works and when it fails. [NewTaskStore] returns a
    store exactly when no directory, open or read call fails and the data
    file is absent or decodes; an absent file is not an error. In every other
    case it returns no store and a persistence error that names the failing
    step: the directory, the open, or the decoding, which fails on a failing
    read and on a text that does not decode. *)
Theorem startup_outcomes io dir fs :
  let path := filepath_Join dir "tasks.json" in
  ((∃ s, NewTaskStore io dir fs = inl s) ↔
     io = LoadRuns ∧
     (fs !! path = None ∨ ∃ text, fs !! path = Some text ∧ is_Some (json_Decode text))) ∧
  (∀ e, NewTaskStore io dir fs = inr e →
     kind e = PersistenceError ∧
     ((io = MkdirFails ∧ e = ErrCreateDataDir) ∨
      (io = OpenFails ∧ e = ErrOpenTasksFile) ∨
      (io = ReadFails ∧ e = ErrDecodeTasksFile) ∨
      (io = LoadRuns ∧ e = ErrDecodeTasksFile ∧
       ∃ text, fs !! path = Some text ∧ json_Decode text = None))).
Proof.
  cbv zeta. unfold NewTaskStore, load, dataPath. simpl.
  destruct io; simpl.
  - destruct (fs !! filepath_Join dir "tasks.json") as [text|] eqn:Hfile.
    + destruct (json_Decode text) as [loaded|] eqn:Hdec.
      * split; [|done]. split; [|by eexists]. intros _. split; [done|].
        right. exists text. split; [done|]. rewrite Hdec. by eexists.
      * split.
        -- split; [by intros [? ?]|]. intros [_ [?|(text' & [= <-] & Hsome)]]; [done|].
           rewrite Hdec in Hsome. by destruct Hsome.
        -- intros e [= <-]. split; [done|]. right. right. right.
           split_and!; [done..|]. by exists text.
    + split; [|done]. split; [|by eexists]. intros _. split; [done|]. by left.
  - split.
    + split; [by intros [? ?]|by intros [? _]].
    + intros e [= <-]. split; [done|]. by left.
  - split.
    + split; [by intros [? ?]|by intros [? _]].
    + intros e [= <-]. split; [done|]. right. by left.
  - split.
    + split; [by intros [? ?]|by intros [? _]].
    + intros e [= <-]. split; [done|]. right. right. by left.
Qed.

Lemma step_tasks o s fs t' :
  t' ∈ tasks (step o s fs).1.1 →
  (∃ t, t ∈ tasks s ∧ ID t' = ID t ∧ Title t' = Title t ∧ CreatedAt t' = CreatedAt t) ∨
  (∃ now io title, o = OpCreate now io title ∧ strings_TrimSpace title ≠ "" ∧
     t' = {| ID := nextID s; Title := strings_TrimSpace title; Done := false;
             CreatedAt := now |}).
Proof.
  destruct o as [now io title|io id|io id]; simpl.
  - destruct (decide (strings_TrimSpace title = "")) as [Hblank|Hne].
    + rewrite Create_blank by done. simpl. intros Hin. left. by exists t'.
    + rewrite Create_nonblank by done.
      assert (∀ x y z, ((let '(s', fs', (t, err)) := (x, y, z) : TaskStore * FS * (Task * option error)
                         in (s', fs', RTask t err)).1.1) = x) as Hproj
        by (by intros ?? [??]).
      rewrite Hproj. simpl. intros [Hin|Hin%list_elem_of_singleton]%elem_of_app.
      * left. by exists t'.
      * right. by exists now, io, title.
  - destruct (decide (id ∈ ID <$> tasks s)) as [Hin|Hnot].
    + apply index_of_is_Some in Hin as [i Hi].
      apply index_of_Some in Hi as (l1 & t & l2 & Hts & _ & Hid & Hl1).
      rewrite (Toggle_found io id s fs l1 t l2) by done. simpl.
      assert (∀ x y z, ((let '(s', fs', (t, err)) := (x, y, z) : TaskStore * FS * (Task * option error)
                         in (s', fs', RTask t err)).1.1) = x) as Hproj
        by (by intros ?? [??]).
      rewrite Hproj. simpl. rewrite Hts.
      intros [Hin|[->|Hin]%elem_of_cons]%elem_of_app; left.
      * exists t'. split; [apply elem_of_app; by left|done].
      * exists t. split; [|done]. apply elem_of_app. right. apply elem_of_cons. by left.
      * exists t'. split; [|done]. apply elem_of_app. right. apply elem_of_cons. by right.
    + rewrite Toggle_missing by done. simpl. intros Hin. left. by exists t'.
  - destruct (decide (id ∈ ID <$> tasks s)) as [Hin|Hnot].
    + apply index_of_is_Some in Hin as [i Hi].
      apply index_of_Some in Hi as (l1 & t & l2 & Hts & _ & Hid & Hl1).
      rewrite (Delete_found io id s fs l1 t l2) by done. simpl. rewrite Hts.
      intros [Hin|Hin]%elem_of_app; left; exists t'.
      * split; [apply elem_of_app; by left|done].
      * split; [|done]. apply elem_of_app. right. apply elem_of_cons. by right.
    + rewrite Delete_missing by done. simpl. intros Hin. left. by exists t'.
Qed.

(** X18. No operation changes the id, the title or the creation time of a
    task. After any run, each task of the store either has the id, title and
    creation time of a task the store had at the start, or was made by a
    Create call of the run, with that call's time and its trimmed, non-empty
    title. *)
Theorem tasks_keep_id_title_time ops s fs t' :
  t' ∈ tasks (run ops s fs).1.1 →
  (∃ t, t ∈ tasks s ∧ ID t' = ID t ∧ Title t' = Title t ∧ CreatedAt t' = CreatedAt t) ∨
  (∃ now io title, OpCreate now io title ∈ ops ∧
     Title t' = strings_TrimSpace title ∧ Title t' ≠ "" ∧ CreatedAt t' = now).
Proof.
  revert s fs. induction ops as [|o ops IH]; intros s fs Hin.
  - left. by exists t'.
  - rewrite run_cons_store in Hin.
    destruct (IH _ _ Hin) as [(t1 & Hin1 & Hid & Htitle & Htime)
                             |(now & io & title & Hop & Hrest)].
    + destruct (step_tasks o s fs t1 Hin1)
        as [(t & Hin0 & Hid0 & Htitle0 & Htime0)|(now & io & title & -> & Hne & ->)].
      * left. exists t. split; [done|]. split_and!; congruence.
      * right. exists now, io, title. simpl in *.
        split; [apply elem_of_cons; by left|]. split_and!; congruence.
    + right. exists now, io, title. split; [apply elem_of_cons; by right|done].
Qed.

End StoreFacts.

(** * Further properties of the slice model *)

Section SliceFacts.
Context `{GoStd}.

(** X7. The operations on slices compute the operations on sequences. In
    every reachable state of the slice model the store's slice is a window
    on an allocated array and the store read through its slice is a reachable
    state of the sequence model; there List returns the elements the
    sequence-level List returns, and Create, Toggle and Delete return the
    reply and leave the file system and the store, read through its slice,
    that the sequence-level operation gives on the store read through its
    slice. NewTaskStore, over any heap, returns the store or the error of the
    sequence-level NewTaskStore. *)
Theorem slices_refine_sequences h ms fs outs :
  Mem.reachable h ms fs outs →
  Mem.wf h ms ∧
  reachable (Mem.view h ms) fs ∧
  Mem.elems (Mem.List h ms).1 (Mem.List h ms).2 = List (Mem.view h ms) ∧
  (∀ now io title,
     let r := Mem.Create now io title h ms fs in
     Create now io title (Mem.view h ms) fs = (Mem.view r.1.1.1 r.1.1.2, r.1.2, r.2)) ∧
  (∀ io id,
     let r := Mem.Toggle io id h ms fs in
     Toggle io id (Mem.view h ms) fs = (Mem.view r.1.1.1 r.1.1.2, r.1.2, r.2)) ∧
  (∀ io id,
     let r := Mem.Delete io id h ms fs in
     Delete io id (Mem.view h ms) fs = (Mem.view r.1.1.1 r.1.1.2, r.1.2, r.2)) ∧
  (∀ io dir h0 fs0,
     match (Mem.NewTaskStore io dir h0 fs0).2 with
     | inl ms0 =>
         NewTaskStore io dir fs0 = inl (Mem.view (Mem.NewTaskStore io dir h0 fs0).1 ms0)
     | inr e => NewTaskStore io dir fs0 = inr e
     end).
Proof.
  intros Hreach.
  destruct (mem_reachable_sound h ms fs outs Hreach) as (Hwf & _ & Hview).
  split_and!; [done|done| | | | |].
  - destruct (mem_List_copy h ms Hwf) as [-> ->]. destruct Hwf as [Hptr Hfit].
    unfold Mem.elems at 1, Mem.array. simpl.
    rewrite heap_alloc_new, drop_0. apply take_ge. by rewrite elems_length.
  - intros now io title. by destruct (mem_Create_sim now io title h ms fs Hwf).
  - intros io id. by destruct (mem_Toggle_sim io id h ms fs Hwf).
  - intros io id. by destruct (mem_Delete_sim io id h ms fs Hwf).
  - intros io dir h0 fs0. pose proof (mem_NewTaskStore_sim io dir h0 fs0) as Hsim.
    destruct (Mem.NewTaskStore io dir h0 fs0).2; [by destruct Hsim|done].
Qed.

(** X8. However callers interleave the store's operations with their own
    use of the slices List returned to them, none of those slices shares the
    store's backing array: an assignment, an append or a reslicing through
    any slice a caller holds leaves the store's state as it is. *)
Theorem callers_cannot_reach_store h ms fs outs out m :
  Mem.reachable h ms fs outs → out ∈ outs →
  Mem.ptr out ≠ Mem.ptr (Mem.mtasks ms) ∧
  Mem.view (Mem.mutate m h out).1 ms = Mem.view h ms.
Proof.
  intros Hreach Hout.
  destruct (mem_reachable_sound h ms fs outs Hreach) as (Hwf & Hsep & _).
  unfold Mem.separated in Hsep. rewrite Forall_forall in Hsep.
  destruct (Hsep out Hout) as [Hlt Hne]. split; [done|].
  apply view_same_array.
  by apply mutate_separate; [destruct Hwf|..].
Qed.

(** X9. Delete works in place: it allocates nothing, the store's slice stays
    on the same backing array at the same offset, arrays of other slices are
    untouched, and the slice is one element shorter exactly when a task had
    the id. *)
Theorem Delete_works_in_place io id h ms fs :
  Mem.wf h ms →
  let h' := (Mem.Delete io id h ms fs).1.1.1 in
  let ms' := (Mem.Delete io id h ms fs).1.1.2 in
  length h' = length h ∧
  Mem.ptr (Mem.mtasks ms') = Mem.ptr (Mem.mtasks ms) ∧
  Mem.off (Mem.mtasks ms') = Mem.off (Mem.mtasks ms) ∧
  (∀ p, p ≠ Mem.ptr (Mem.mtasks ms) → h' !! p = h !! p) ∧
  (id ∈ ID <$> Mem.elems h (Mem.mtasks ms) →
     S (Mem.len (Mem.mtasks ms')) = Mem.len (Mem.mtasks ms)) ∧
  (id ∉ ID <$> Mem.elems h (Mem.mtasks ms) → h' = h ∧ ms' = ms).
Proof.
  intros [Hptr Hfit]. cbv zeta. unfold Mem.Delete.
  destruct (index_of id (Mem.elems h (Mem.mtasks ms))) as [i|] eqn:Hidx.
  - assert (i < Mem.len (Mem.mtasks ms)) as Hi.
    { apply index_of_Some in Hidx as (l1 & t & l2 & Hts & Hlen & _).
      rewrite <-(elems_length h (Mem.mtasks ms)), Hts, length_app by done.
      simpl. lia. }
    assert (id ∈ ID <$> Mem.elems h (Mem.mtasks ms)) as Hin.
    { apply index_of_Some in Hidx as (l1 & t & l2 & -> & _ & <- & _).
      rewrite fmap_app, fmap_cons. apply elem_of_app. right. apply elem_of_cons. by left. }
    set (sl := Mem.mtasks ms) in *.
    set (xs := Mem.elems h (Mem.sub sl (S i) (Mem.len sl))).
    assert (length xs = Mem.len sl - S i) as Hxs.
    { unfold xs, Mem.elems, Mem.array, Mem.sub. simpl.
      rewrite length_take_le; [done|]. rewrite length_drop.
      unfold Mem.array in Hfit. lia. }
    unfold Mem.append. simpl.
    rewrite decide_True
      by (unfold Mem.cap, Mem.array in *; simpl; rewrite Hxs; lia).
    destruct (Mem.save io _ _ fs) as [fs' err]. simpl.
    rewrite length_alter, Hxs. split_and!; [done..| | |done].
    + intros p Hp. by apply heap_alter_other.
    + intros _. lia.
  - apply index_of_None in Hidx. simpl. split_and!; done.
Qed.

End SliceFacts.

(** * Properties of the HTTP handlers *)

Lemma append_cons c (a b : string) : String c a +:+ b = String c (a +:+ b).
Proof. reflexivity. Qed.

Lemma cut_prefix_app prefix s : cut_prefix prefix (prefix +:+ s) = Some s.
Proof.
  induction prefix as [|c prefix IH]; [done|].
  rewrite append_cons. simpl. by rewrite Ascii.eqb_refl.
Qed.

Lemma TrimPrefix_app prefix s : strings_TrimPrefix (prefix +:+ s) prefix = s.
Proof. unfold strings_TrimPrefix. by rewrite cut_prefix_app. Qed.

Lemma split_slash_nonempty s : split_slash s ≠ [].
Proof.
  destruct s as [|c r]; simpl; [done|].
  destruct (Ascii.eqb c "/"); [done|]. by destruct (split_slash r).
Qed.

Lemma split_slash_segment seg : no_slash seg = true → split_slash seg = [seg].
Proof.
  induction seg as [|c seg IH]; simpl; [done|].
  intros [Hc Hseg]%andb_prop. apply negb_true_iff in Hc. rewrite Hc.
  by rewrite IH.
Qed.

Lemma split_slash_first seg rest :
  no_slash seg = true →
  split_slash (seg +:+ "/" +:+ rest) = seg :: split_slash rest.
Proof.
  induction seg as [|c seg IH]; [done|].
  rewrite append_cons. simpl.
  intros [Hc Hseg]%andb_prop. apply negb_true_iff in Hc. rewrite Hc.
  by rewrite IH.
Qed.

(** Decide the shape of a response whose status, headers and body are
    known. *)
Ltac response_shape :=
  split_and!;
  [ apply (bool_decide_unpack _); vm_compute; exact I
  | split; [intros [=]; auto | intros [Hst|Hst]; first [done | discriminate Hst]]
  | split; [intros [allow [=]]; done | intros Hst; first [discriminate Hst | by eexists]]
  | split; [intros [=]; done | intros Hst; first [done | discriminate Hst]] ].

Section HttpFacts.
Context `{GoStd} `{GoNet}.

(** X10. What the server can answer. A request goes to the file server
    exactly when the root handler gets a path that is not under "/api/".
    Every other response has one of the statuses 200, 201, 204, 400, 404 and
    405 (never a 5xx, whatever fails); it has the JSON content type exactly
    when the status is 200 or 201, an Allow header exactly when the status is
    405, and an empty body exactly when the status is 204. *)
Theorem responses_of_the_server pat now io r s fs :
  let resp := (handle pat now io r s fs).2 in
  (resp = FileServer ↔ pat = PatRoot ∧ strings_HasPrefix (Path r) "/api/" = false) ∧
  (∀ status header body, resp = Written status header body →
     status ∈ [200; 201; 204; 400; 404; 405] ∧
     (header = [("Content-Type", "application/json")] ↔ status = 200 ∨ status = 201) ∧
     ((∃ allow, header = [("Allow", allow)]) ↔ status = 405) ∧
     (body = PEmpty ↔ status = 204)).
Proof.
  cbv zeta. destruct pat; simpl.
  - unfold handleTasks.
    repeat (case_decide || case_match); simplify_eq/=;
      (split; [split; [done|by intros [? _]]|]);
      intros ??? [= <- <- <-]; response_shape.
  - unfold handleTask.
    repeat (case_decide || case_match); simplify_eq/=;
      (split; [split; [done|by intros [? _]]|]);
      intros ??? [= <- <- <-]; response_shape.
  - unfold handleRoot.
    destruct (strings_HasPrefix (Path r) "/api/"); simpl.
    + split; [split; [done|by intros [_ ?]]|].
      intros ??? [= <- <- <-]. response_shape.
    + split; [done|]. intros ??? [=].
Qed.

(** X11. Only a POST to "/api/tasks" and a PATCH or DELETE to
    "/api/tasks/" can change the store or the file system: every other
    request leaves both as they were. *)
Theorem only_mutating_methods_mutate pat now io r s fs :
  (handle pat now io r s fs).1 ≠ (s, fs) →
  (pat = PatTasks ∧ Method r = "POST") ∨
  (pat = PatTask ∧ (Method r = "PATCH" ∨ Method r = "DELETE")).
Proof.
  destruct pat; simpl.
  - unfold handleTasks. intros Hchg. left. split; [done|].
    destruct (decide (Method r = "GET")); [done|].
    destruct (decide (Method r = "POST")); done.
  - unfold handleTask. intros Hchg. right. split; [done|].
    destruct (split_slash _) as [|part0 parts]; [done|].
    destruct (decide (part0 = "")); [done|].
    destruct (strconv_Atoi part0); [|done].
    destruct (decide (Method r = "PATCH")); [by left|].
    destruct (decide (Method r = "DELETE")); [by right|done].
  - unfold handleRoot. by destruct (strings_HasPrefix _ _).
Qed.

(** X12. A POST is answered 201 or 400. With 201 the body is the created
    task: it is the last task of the store, it has the store's former nextID
    as id and a non-blank trimmed title, and the data file holds the encoding
    of the new sequence. With 400 either nothing has changed, or the body is a
    persistence error and the task has been appended all the same. *)
Theorem POST_creates_or_rejects now io r s fs :
  Method r = "POST" →
  let s' := (handleTasks now io r s fs).1.1 in
  let fs' := (handleTasks now io r s fs).1.2 in
  let resp := (handleTasks now io r s fs).2 in
  (∃ t, resp = writeJSON StatusCreated (PTask t) ∧
        tasks s' = tasks s ++ [t] ∧ ID t = nextID s ∧ Title t ≠ "" ∧ Done t = false ∧
        ∃ text, json_Encode (tasks s') = Some text ∧ fs' !! dataPath s' = Some text) ∨
  (status_of resp = Some StatusBadRequest ∧ s' = s ∧ fs' = fs) ∨
  (∃ e t, resp = http_Error [] (PError e) StatusBadRequest ∧
          kind e = PersistenceError ∧
          tasks s' = tasks s ++ [t] ∧ ID t = nextID s ∧
          nextID s' = wrap (nextID s + 1)).
Proof.
  intros Hpost. cbv zeta. unfold handleTasks. rewrite Hpost. simpl.
  destruct (Body r) as [body|]; [|right; left; done].
  destruct (json_Unmarshal_title body) as [title|]; [|right; left; done].
  destruct (decide (strings_TrimSpace title = "")) as [Hblank|Hne].
  { rewrite Create_blank by done. right. left. done. }
  rewrite Create_nonblank by done.
  destruct (save io (appended now title s) fs) as [fs1 [err|]] eqn:Hsave; simpl.
  - right. right. eexists err, _. split_and!; [done| |done..].
    by eapply save_error_kind.
  - left. eexists. split_and!; [done..|]. by apply save_success in Hsave.
Qed.

(** X13. The id in the path is checked before the method: when the segment
    after "/api/tasks/" is empty the answer is 404, and when it is not a
    number the answer is 400, for every method, and the store is not
    touched. *)
Theorem bad_id_never_reaches_store io m seg body s fs :
  no_slash seg = true →
  seg = "" ∨ strconv_Atoi seg = None →
  handleTask io {| Method := m; Path := "/api/tasks/" +:+ seg; Body := body |} s fs =
  (s, fs, if decide (seg = "") then http_NotFound
          else http_Error [] (PText "invalid task id") StatusBadRequest).
Proof.
  intros Hseg Hbad. unfold handleTask. simpl Path.
  rewrite TrimPrefix_app, split_slash_segment by done.
  destruct (decide (seg = "")) as [Hempty|Hne]; [done|].
  destruct Hbad as [?|Hbad]; [done|]. by rewrite Hbad.
Qed.

(** X14. Only the first segment after "/api/tasks/" counts: whatever
    follows its slash is ignored, and so is the request body. *)
Theorem trailing_segments_are_ignored io m seg rest body body' s fs :
  no_slash seg = true →
  handleTask io {| Method := m; Path := "/api/tasks/" +:+ seg +:+ "/" +:+ rest;
                   Body := body |} s fs =
  handleTask io {| Method := m; Path := "/api/tasks/" +:+ seg; Body := body' |} s fs.
Proof.
  intros Hseg. unfold handleTask. simpl Path. rewrite !TrimPrefix_app.
  by rewrite split_slash_first, split_slash_segment.
Qed.

(** X15. A PATCH or DELETE whose path carries a number. When no task has
    that id the answer is 404 with the not-found error and nothing changes.
    When a task has it, the first such task is flipped (PATCH) or removed
    (DELETE) in the store in every case; the answer is 200 with the flipped
    task, or 204 with no body, and the data file then holds the new sequence,
    or else the answer is again 404, now with a persistence error. *)
Theorem item_request_outcomes io m seg id body s fs :
  no_slash seg = true → seg ≠ "" → strconv_Atoi seg = Some id →
  m = "PATCH" ∨ m = "DELETE" →
  let out := handleTask io {| Method := m; Path := "/api/tasks/" +:+ seg;
                              Body := body |} s fs in
  (id ∉ ID <$> tasks s →
     out = (s, fs, http_Error [] (PError ErrTaskNotFound) StatusNotFound)) ∧
  (id ∈ ID <$> tasks s →
     ∃ l1 t l2, tasks s = l1 ++ t :: l2 ∧ ID t = id ∧ (id ∉ ID <$> l1) ∧
       tasks out.1.1 = (if decide (m = "PATCH") then l1 ++ flip_done t :: l2
                        else l1 ++ l2) ∧
       nextID out.1.1 = nextID s ∧
       ((out.2 = (if decide (m = "PATCH") then writeJSON StatusOK (PTask (flip_done t))
                  else Written StatusNoContent [] PEmpty) ∧
         ∃ text, json_Encode (tasks out.1.1) = Some text ∧
                 out.1.2 !! dataPath out.1.1 = Some text) ∨
        (∃ e, out.2 = http_Error [] (PError e) StatusNotFound ∧
              kind e = PersistenceError))).
Proof.
  intros Hseg Hne Hid Hm. cbv zeta. unfold handleTask. simpl Path. simpl Method.
  rewrite TrimPrefix_app, split_slash_segment by done.
  rewrite decide_False, Hid by done. split.
  - intros Hnot. destruct Hm as [-> | ->].
    + rewrite decide_True by done. by rewrite Toggle_missing.
    + rewrite decide_False, decide_True by done. by rewrite Delete_missing.
  - intros Hin. apply index_of_is_Some in Hin as [i Hi].
    apply index_of_Some in Hi as (l1 & t & l2 & Hts & _ & Ht & Hl1).
    exists l1, t, l2. split_and!; [done..| | |].
    + destruct Hm as [-> | ->].
      * rewrite !decide_True by done.
        rewrite (Toggle_found io id s fs l1 t l2) by done.
        by destruct (save io _ fs) as [fs' [err|]].
      * rewrite !(decide_False (P := "DELETE" = "PATCH")) by done.
        rewrite decide_True by done.
        rewrite (Delete_found io id s fs l1 t l2) by done.
        by destruct (save io _ fs) as [fs' [err|]].
    + destruct Hm as [-> | ->].
      * rewrite !decide_True by done.
        rewrite (Toggle_found io id s fs l1 t l2) by done.
        by destruct (save io _ fs) as [fs' [err|]].
      * rewrite !(decide_False (P := "DELETE" = "PATCH")) by done.
        rewrite decide_True by done.
        rewrite (Delete_found io id s fs l1 t l2) by done.
        by destruct (save io _ fs) as [fs' [err|]].
    + destruct Hm as [-> | ->].
      * rewrite !decide_True by done.
        rewrite (Toggle_found io id s fs l1 t l2) by done.
        destruct (save io _ fs) as [fs' [err|]] eqn:Hsave; simpl.
        -- right. exists err. split; [done|]. by eapply save_error_kind.
        -- left. split; [done|]. by apply save_success in Hsave.
      * rewrite !(decide_False (P := "DELETE" = "PATCH")) by done.
        rewrite decide_True by done.
        rewrite (Delete_found io id s fs l1 t l2) by done.
        destruct (save io _ fs) as [fs' [err|]] eqn:Hsave; simpl.
        -- right. exists err. split; [done|]. by eapply save_error_kind.
        -- left. split; [done|]. by apply save_success in Hsave.
Qed.

Lemma handleTasks_created now io r s fs :
  status_of (handleTasks now io r s fs).2 = Some StatusCreated →
  ∃ t, (handleTasks now io r s fs).2 = writeJSON StatusCreated (PTask t) ∧
       tasks (handleTasks now io r s fs).1.1 = tasks s ++ [t].
Proof.
  unfold handleTasks.
  destruct (decide (Method r = "GET")); [done|].
  destruct (decide (Method r = "POST")); [|done].
  destruct (Body r) as [body|]; [|done].
  destruct (json_Unmarshal_title body) as [title|]; [|done].
  destruct (decide (strings_TrimSpace title = "")) as [Hblank|Hne].
  { by rewrite Create_blank. }
  rewrite Create_nonblank by done.
  destruct (save io (appended now title s) fs) as [fs1 [err|]]; simpl; [done|].
  intros _. by eexists.
Qed.

Lemma exchange_cons now io r reqs s fs :
  exchange ((now, io, r) :: reqs) s fs =
    let out := handleTasks now io r s fs in
    let rest := exchange reqs out.1.1 out.1.2 in
    (rest.1.1, rest.1.2, out.2 :: rest.2).
Proof.
  cbn [exchange]. destruct (handleTasks now io r s fs) as [[s1 fs1] resp].
  cbn [fst snd]. by destruct (exchange reqs s1 fs1) as [[s2 fs2] resps].
Qed.

(** X16. What a client that creates tasks sees afterwards: when every
    request of an exchange with "/api/tasks" was answered 201, a GET that
    follows is answered 200 with the tasks the store had before, followed by
    the tasks of the 201 responses, in the order of the requests. *)
Theorem created_tasks_are_listed reqs now io body s fs :
  Forall (λ resp, status_of resp = Some StatusCreated) (exchange reqs s fs).2 →
  (handleTasks now io {| Method := "GET"; Path := "/api/tasks"; Body := body |}
     (exchange reqs s fs).1.1 (exchange reqs s fs).1.2).2 =
  writeJSON StatusOK (PTasks (tasks s ++ omap task_of (exchange reqs s fs).2)).
Proof.
  revert s fs. induction reqs as [|[[now' io'] r] reqs IH]; intros s fs Hall.
  - simpl. unfold handleTasks. simpl. by rewrite app_nil_r.
  - rewrite exchange_cons in *. cbv zeta in *. cbn [fst snd] in *.
    apply Forall_cons in Hall as [Hfirst Hrest].
    destruct (handleTasks_created now' io' r s fs Hfirst) as (t & Hresp & Hts).
    rewrite (IH _ _ Hrest), Hts, Hresp. simpl. by rewrite <-app_assoc.
Qed.

End HttpFacts.

(** * Runs on the reference instance *)

#[local] Existing Instance Ref.std.

(** The scenarios of the specification. *)
Example scenario_create :
  (Create 5%Z SaveRuns "Buy milk" Ref.empty_store ∅).2 =
    ({| ID := 1; Title := "Buy milk"; Done := false; CreatedAt := 5%Z |}, None) ∧
  (Create 5%Z SaveRuns "  " Ref.empty_store ∅).2.2 = Some ErrTitleRequired.
Proof. split; vm_compute; reflexivity. Qed.

Example scenario_toggle_twice :
  let r1 := Create 5%Z SaveRuns "Buy milk" Ref.empty_store ∅ in
  let r2 := Toggle SaveRuns 1 r1.1.1 r1.1.2 in
  let r3 := Toggle SaveRuns 1 r2.1.1 r2.1.2 in
  (Done r2.2.1, r2.2.2) = (true, None) ∧ (Done r3.2.1, r3.2.2) = (false, None).
Proof. split; vm_compute; reflexivity. Qed.

Example scenario_delete_then_toggle :
  let r1 := Create 5%Z SaveRuns "Buy milk" Ref.empty_store ∅ in
  let r2 := Delete SaveRuns 1 r1.1.1 r1.1.2 in
  r2.2 = None ∧ (Toggle SaveRuns 1 r2.1.1 r2.1.2).2.2 = Some ErrTaskNotFound.
Proof. split; vm_compute; reflexivity. Qed.

Example scenario_load_3_7_2 :
  NewTaskStore LoadRuns "data"
    (Ref.disk [Ref.task 3 "a"; Ref.task 7 "b"; Ref.task 2 "c"]) =
  inl {| tasks := [Ref.task 3 "a"; Ref.task 7 "b"; Ref.task 2 "c"];
         nextID := 8; dataDir := "data" |}.
Proof. vm_compute. reflexivity. Qed.

(** C1 fails as stated: over a data file whose largest id is one below the
    largest int, the first Create gets the largest int and the second Create
    gets the smallest one. *)
Lemma created_ids_wrap_around :
  let fs0 := Ref.disk [Ref.task (int_max - 1) "x"] in
  ∃ s0, NewTaskStore LoadRuns "data" fs0 = inl s0 ∧
    created_ids (run [OpCreate 0%Z SaveRuns "a"; OpCreate 0%Z SaveRuns "b"] s0 fs0).2
      = [int_max; int_min] ∧
    ¬ StronglySorted Z.lt [int_max; int_min].
Proof.
  eexists. split; [vm_compute; reflexivity|]. split; [vm_compute; reflexivity|].
  intros Hsorted. apply StronglySorted_cons in Hsorted as [Hlt _].
  apply Forall_cons in Hlt as [Hlt _]. vm_compute in Hlt. discriminate.
Qed.

(** A run on which the amended C1 applies, up to the largest int: the store
    starts two ids below it, and two Toggles and a blank Create, which hand
    out no id, come before the two Creates that do. *)
Lemma created_ids_increase_run :
  let fs0 := Ref.disk [Ref.task (int_max - 3) "x"] in
  let s0 := {| tasks := [Ref.task (int_max - 3) "x"]; nextID := int_max - 2;
               dataDir := "data" |} in
  let ops := [OpToggle SaveRuns 1; OpToggle SaveRuns 1; OpCreate 0%Z SaveRuns "  ";
              OpCreate 1%Z SaveRuns "a"; OpCreate 2%Z Ref.rename_fails "b";
              OpDelete SaveRuns (int_max - 2); OpCreate 3%Z SaveRuns " c "] in
  NewTaskStore LoadRuns "data" fs0 = inl s0 ∧
  in_int (nextID s0) ∧
  handed_out ops = 3 ∧
  (nextID s0 + Z.of_nat (handed_out ops) ≤ int_max + 1)%Z ∧
  created_ids (run ops s0 fs0).2 = [int_max - 2; int_max]%Z ∧
  StronglySorted Z.lt (created_ids (run ops s0 fs0).2) ∧
  NoDup (created_ids (run ops s0 fs0).2) ∧
  Forall (λ i, (nextID s0 ≤ i)%Z) (created_ids (run ops s0 fs0).2).
Proof.
  cbv zeta.
  set (fs0 := Ref.disk [Ref.task (int_max - 3) "x"]).
  set (s0 := {| tasks := [Ref.task (int_max - 3) "x"]; nextID := int_max - 2;
                dataDir := "data" |}).
  set (ops := [OpToggle SaveRuns 1; OpToggle SaveRuns 1; OpCreate 0%Z SaveRuns "  ";
               OpCreate 1%Z SaveRuns "a"; OpCreate 2%Z Ref.rename_fails "b";
               OpDelete SaveRuns (int_max - 2); OpCreate 3%Z SaveRuns " c "]).
  assert (in_int (nextID s0)) as Hint by (vm_compute; split; discriminate).
  assert (nextID s0 + Z.of_nat (handed_out ops) ≤ int_max + 1)%Z as Hbound
    by (vm_compute; discriminate).
  split; [vm_compute; reflexivity|]. split; [exact Hint|].
  split; [vm_compute; reflexivity|]. split; [exact Hbound|].
  split; [vm_compute; reflexivity|].
  exact (created_ids_increase ops s0 fs0 Hint Hbound).
Defined.



(** A Create on which C3 applies: the title is trimmed and the task gets
    the store's nextID. *)
Lemma Create_validates_title_run :
  (Create 5%Z SaveRuns "  Buy milk " Ref.empty_store ∅).2.2 = None ∧
  (Create 5%Z SaveRuns "  Buy milk " Ref.empty_store ∅).2.1 =
    {| ID := 1; Title := "Buy milk"; Done := false; CreatedAt := 5%Z |} ∧
  (∅ : FS) !! filepath_Join "data" "tasks.json" = None ∧
  NewTaskStore LoadRuns "data" ∅ = inl Ref.empty_store ∧
  ID (Create 5%Z SaveRuns "  Buy milk " Ref.empty_store ∅).2.1 = 1%Z.
Proof.
  assert ((Create 5%Z SaveRuns "  Buy milk " Ref.empty_store ∅).2.2 = None) as Hok
    by (vm_compute; reflexivity).
  assert ((∅ : FS) !! filepath_Join "data" "tasks.json" = None) as Hno
    by (vm_compute; reflexivity).
  assert (NewTaskStore LoadRuns "data" ∅ = inl Ref.empty_store) as Hnew
    by (vm_compute; reflexivity).
  destruct (Create_validates_title 5%Z SaveRuns "  Buy milk " Ref.empty_store ∅)
    as (_ & _ & Htask & Hfirst).
  split; [exact Hok|]. split; [exact (Htask Hok)|].
  split; [exact Hno|]. split; [exact Hnew|].
  exact (Hfirst "data" Ref.empty_store Hno Hnew Hok).
Defined.

(** A Create whose save fails at the rename: the error comes back and the
    task stays in the store. *)
Lemma Create_persist_error_run :
  let r := Create 5%Z Ref.rename_fails "Buy milk" Ref.empty_store ∅ in
  let task := {| ID := 1; Title := "Buy milk"; Done := false; CreatedAt := 5%Z |} in
  let s1 := {| tasks := [task]; nextID := 2; dataDir := "data" |} in
  strings_TrimSpace "Buy milk" ≠ "" ∧
  (save Ref.rename_fails s1 ∅).2 = Some ErrRenameTempFile ∧
  kind ErrRenameTempFile = PersistenceError ∧
  r = (s1, (save Ref.rename_fails s1 ∅).1, (zeroTask, Some ErrRenameTempFile)) ∧
  tasks r.1.1 = [task] ∧ nextID r.1.1 = 2%Z ∧ List r.1.1 = [task].
Proof.
  cbv zeta.
  assert (strings_TrimSpace "Buy milk" ≠ "") as Hne by (vm_compute; discriminate).
  assert ((save Ref.rename_fails
             {| tasks := [{| ID := 1; Title := "Buy milk"; Done := false;
                             CreatedAt := 5%Z |}];
                nextID := 2; dataDir := "data" |} ∅).2 = Some ErrRenameTempFile)
    as Hsave by (vm_compute; reflexivity).
  split; [exact Hne|]. split; [exact Hsave|].
  destruct (Create_persist_error_keeps_task 5%Z Ref.rename_fails "Buy milk"
              Ref.empty_store ∅ Hne) as (_ & Hfail & _).
  exact (Hfail ErrRenameTempFile Hsave).
Defined.

(** A blank title on which C10 applies, with a save that would have
    failed. *)
Lemma Create_blank_title_run :
  strings_TrimSpace "   " = "" ∧
  Create 5%Z Ref.rename_fails "   " Ref.empty_store ∅ =
    (Ref.empty_store, ∅, (zeroTask, Some ErrTitleRequired)).
Proof.
  assert (strings_TrimSpace "   " = "") as Hblank by (vm_compute; reflexivity).
  split; [exact Hblank|].
  exact (Create_blank_title_is_atomic 5%Z Ref.rename_fails "   " Ref.empty_store ∅ Hblank).
Defined.

(** C5 fails as stated: a data file with the same id twice decodes, and the
    store NewTaskStore returns has that id twice. *)
Lemma loaded_ids_repeat :
  let fs0 := Ref.disk [Ref.task 1 "a"; Ref.task 1 "b"] in
  ∃ s0, NewTaskStore LoadRuns "data" fs0 = inl s0 ∧
    reachable s0 fs0 ∧
    ID <$> tasks s0 = [1; 1]%Z ∧
    ¬ NoDup (ID <$> tasks s0).
Proof.
  cbv zeta.
  assert (NewTaskStore LoadRuns "data" (Ref.disk [Ref.task 1 "a"; Ref.task 1 "b"])
          = inl {| tasks := [Ref.task 1 "a"; Ref.task 1 "b"]; nextID := 2;
                   dataDir := "data" |}) as Hnew by (vm_compute; reflexivity).
  eexists. split; [exact Hnew|]. split; [by eapply reach_new|].
  split; [reflexivity|]. simpl. intros Hnd.
  apply NoDup_cons in Hnd as [Hnot _]. apply Hnot, list_elem_of_singleton. done.
Qed.

(** A start and a run on which the amended C5 applies, up to the largest
    int: the store starts one id below it, and the Toggles and the Delete,
    which hand out no id, do not count against the two Creates. *)
Lemma ids_stay_distinct_run :
  let loaded := [Ref.task 3 "a"; Ref.task (int_max - 2) "b"; Ref.task 2 "c"] in
  let s0 := {| tasks := loaded; nextID := int_max - 1; dataDir := "data" |} in
  let ops := [OpToggle SaveRuns 3; OpToggle SaveRuns 3; OpCreate 0%Z SaveRuns "d";
              OpDelete SaveRuns 2; OpToggle SaveRuns 3;
              OpCreate 1%Z Ref.rename_fails "e"] in
  NewTaskStore LoadRuns "data" (Ref.disk loaded) = inl s0 ∧
  NoDup (ID <$> tasks s0) ∧
  Forall (λ t, (ID t < int_max)%Z) (tasks s0) ∧
  handed_out ops = 2 ∧
  (nextID s0 + Z.of_nat (handed_out ops) ≤ int_max + 1)%Z ∧
  ID <$> tasks (run ops s0 (Ref.disk loaded)).1.1
    = [3; int_max - 2; int_max - 1; int_max]%Z ∧
  NoDup (ID <$> tasks (run ops s0 (Ref.disk loaded)).1.1).
Proof.
  cbv zeta.
  set (loaded := [Ref.task 3 "a"; Ref.task (int_max - 2) "b"; Ref.task 2 "c"]).
  set (s0 := {| tasks := loaded; nextID := int_max - 1; dataDir := "data" |}).
  set (ops := [OpToggle SaveRuns 3; OpToggle SaveRuns 3; OpCreate 0%Z SaveRuns "d";
               OpDelete SaveRuns 2; OpToggle SaveRuns 3;
               OpCreate 1%Z Ref.rename_fails "e"]).
  assert (NewTaskStore LoadRuns "data" (Ref.disk loaded) = inl s0) as Hnew
    by (vm_compute; reflexivity).
  assert (NoDup (ID <$> tasks s0)) as Hnd by (apply (bool_decide_unpack _); vm_compute; exact I).
  assert (Forall (λ t, (ID t < int_max)%Z) (tasks s0)) as Hbelow
    by (repeat constructor).
  assert (nextID s0 + Z.of_nat (handed_out ops) ≤ int_max + 1)%Z as Hbound
    by (vm_compute; discriminate).
  split_and!; [exact Hnew|exact Hnd|exact Hbelow|vm_compute; reflexivity|exact Hbound
              |vm_compute; reflexivity|].
  exact (ids_stay_distinct LoadRuns "data" (Ref.disk loaded) s0 ops Hnew Hnd Hbelow Hbound).
Defined.

(** C6 fails as stated: over a data file whose only task has the largest int
    as its id, one more than the largest loaded id is not an int, and nextID
    is 1, below the id in the store. *)
Lemma load_at_largest_int :
  ∃ s, NewTaskStore LoadRuns "data" (Ref.disk [Ref.task int_max "x"]) = inl s ∧
    tasks s = [Ref.task int_max "x"] ∧
    is_max int_max (ID <$> tasks s) ∧
    nextID s = 1%Z ∧
    nextID s ≠ Z.max 1 (int_max + 1) ∧
    (nextID s < int_max)%Z.
Proof.
  eexists. split; [vm_compute; reflexivity|]. simpl.
  split_and!; [done| |done|discriminate|done].
  split; [apply list_elem_of_singleton; done|].
  intros x Hx. apply list_elem_of_singleton in Hx as ->. done.
Qed.

(** The three cases of C6. *)
Lemma load_recomputes_nextID_run :
  NewTaskStore LoadRuns "data" ∅ = inl Ref.empty_store ∧
  (∃ s, NewTaskStore LoadRuns "data"
          (Ref.disk [Ref.task 3 "a"; Ref.task 7 "b"; Ref.task 2 "c"]) = inl s ∧
        ID <$> tasks s = [3; 7; 2]%Z ∧ nextID s = 8%Z) ∧
  (∃ e, NewTaskStore LoadRuns "data" Ref.bad_disk = inr e ∧ kind e = PersistenceError).
Proof.
  split_and!.
  - destruct (load_recomputes_nextID "data" ∅) as (Habsent & _ & _).
    apply Habsent. vm_compute. reflexivity.
  - destruct (load_recomputes_nextID "data"
                (Ref.disk [Ref.task 3 "a"; Ref.task 7 "b"; Ref.task 2 "c"]))
      as (_ & Hpresent & _).
    destruct (Hpresent (Ref.text_of [Ref.task 3 "a"; Ref.task 7 "b"; Ref.task 2 "c"])
                [Ref.task 3 "a"; Ref.task 7 "b"; Ref.task 2 "c"])
      as (s & Hnew & Hts & _ & _ & _ & _ & Height);
      [vm_compute; reflexivity|vm_compute; reflexivity|].
    exists s. split; [exact Hnew|]. split; [by rewrite Hts|]. by apply Height.
  - destruct (load_recomputes_nextID "data" Ref.bad_disk) as (_ & _ & Hbad).
    apply (Hbad "[{"); vm_compute; reflexivity.
Defined.

(** A store in memory on which C7 applies: two tasks in an array of three
    cells. *)
Lemma List_returns_private_copy_run :
  let h := [[Ref.task 1 "a"; Ref.task 2 "b"; zeroTask]] in
  let ms := {| Mem.mtasks := {| Mem.ptr := 0; Mem.off := 0; Mem.len := 2 |};
               Mem.mnextID := 3; Mem.mdataDir := "data" |} in
  Mem.wf h ms ∧
  Mem.elems (Mem.List h ms).1 (Mem.List h ms).2 = List (Mem.view h ms) ∧
  Mem.view (Mem.List h ms).1 ms = Mem.view h ms ∧
  (∀ p, p < length h → (Mem.List h ms).1 !! p = h !! p) ∧
  Mem.ptr (Mem.List h ms).2 ≠ Mem.ptr (Mem.mtasks ms) ∧
  (∀ muts, Mem.view (Mem.mutate_all muts (Mem.List h ms).1 (Mem.List h ms).2).1 ms
           = Mem.view h ms).
Proof.
  cbv zeta.
  set (h := [[Ref.task 1 "a"; Ref.task 2 "b"; zeroTask]]).
  set (ms := {| Mem.mtasks := {| Mem.ptr := 0; Mem.off := 0; Mem.len := 2 |};
                Mem.mnextID := 3; Mem.mdataDir := "data" |}).
  assert (Mem.wf h ms) as Hwf by (split; simpl; lia).
  split; [exact Hwf|].
  exact (List_returns_private_copy h ms Hwf).
Defined.

(** What the copy protects against: a write through the store's own slice
    shows in the store, the same write through the slice List returned does
    not. *)
Example write_through_alias :
  let h := [[Ref.task 1 "a"; Ref.task 2 "b"; zeroTask]] in
  let ms := {| Mem.mtasks := {| Mem.ptr := 0; Mem.off := 0; Mem.len := 2 |};
               Mem.mnextID := 3; Mem.mdataDir := "data" |} in
  let '(h', out) := Mem.List h ms in
  tasks (Mem.view (Mem.mutate (Mem.MSet 0 zeroTask) h' (Mem.mtasks ms)).1 ms)
    = [zeroTask; Ref.task 2 "b"] ∧
  tasks (Mem.view (Mem.mutate (Mem.MSet 0 zeroTask) h' out).1 ms)
    = [Ref.task 1 "a"; Ref.task 2 "b"] ∧
  Mem.elems (Mem.mutate (Mem.MSet 0 zeroTask) h' out).1 out
    = [zeroTask; Ref.task 2 "b"].
Proof. vm_compute. done. Qed.

(** C8 fails as stated: over a data file in which two tasks have id 1,
    Delete(1) succeeds and the Toggle(1) that follows succeeds too, on the
    second of the two tasks. *)
Lemma toggle_after_delete_succeeds :
  let fs0 := Ref.disk [Ref.task 1 "a"; Ref.task 1 "b"] in
  ∃ s0, NewTaskStore LoadRuns "data" fs0 = inl s0 ∧
    let r := Delete SaveRuns 1 s0 fs0 in
    r.2 = None ∧
    (Toggle SaveRuns 1 r.1.1 r.1.2).2 =
      ({| ID := 1; Title := "b"; Done := true; CreatedAt := 0%Z |}, None) ∧
    (Toggle SaveRuns 1 r.1.1 r.1.2).2.2 ≠ Some ErrTaskNotFound.
Proof.
  eexists. split; [vm_compute; reflexivity|].
  cbv zeta. split_and!; [vm_compute; reflexivity..|].
  vm_compute. discriminate.
Qed.

(** A Delete on which the amended C8 applies, followed by a Toggle of the
    deleted id. *)
Lemma Delete_removes_task_run :
  let s := {| tasks := [Ref.task 1 "a"; Ref.task 2 "b"; Ref.task 3 "c"];
              nextID := 4; dataDir := "data" |} in
  let r := Delete SaveRuns 2 s ∅ in
  (2%Z ∈ ID <$> tasks s) ∧ NoDup (ID <$> tasks s) ∧
  tasks r.1.1 = [Ref.task 1 "a"; Ref.task 3 "c"] ∧
  (Toggle SaveRuns 2 r.1.1 r.1.2).2.2 = Some ErrTaskNotFound.
Proof.
  cbv zeta.
  set (s := {| tasks := [Ref.task 1 "a"; Ref.task 2 "b"; Ref.task 3 "c"];
               nextID := 4; dataDir := "data" |}).
  assert (2%Z ∈ ID <$> tasks s) as Hin by (apply (bool_decide_unpack _); vm_compute; exact I).
  assert (NoDup (ID <$> tasks s)) as Hnd by (apply (bool_decide_unpack _); vm_compute; exact I).
  split; [exact Hin|]. split; [exact Hnd|]. split; [vm_compute; reflexivity|].
  destruct (Delete_removes_task SaveRuns 2 s ∅) as [_ Hfound].
  destruct (Hfound Hin) as (l1 & t & l2 & _ & _ & _ & _ & _ & _ & Htoggle).
  exact (Htoggle Hnd SaveRuns).
Defined.

(** A Toggle on which C9 applies: the second of three tasks. *)
Lemma Toggle_flips_done_run :
  let s := {| tasks := [Ref.task 1 "a"; Ref.task 2 "b"; Ref.task 3 "c"];
              nextID := 4; dataDir := "data" |} in
  let r := Toggle SaveRuns 2 s ∅ in
  (2%Z ∈ ID <$> tasks s) ∧
  r.2 = ({| ID := 2; Title := "b"; Done := true; CreatedAt := 0%Z |}, None) ∧
  ∃ l1 t l2, tasks s = l1 ++ t :: l2 ∧ ID t = 2%Z ∧ (2%Z ∉ ID <$> l1) ∧
    let t' := {| ID := ID t; Title := Title t; Done := negb (Done t);
                 CreatedAt := CreatedAt t |} in
    tasks r.1.1 = l1 ++ t' :: l2 ∧
    nextID r.1.1 = nextID s ∧
    dataDir r.1.1 = dataDir s ∧
    (r.2.2 = None → r.2.1 = t') ∧
    (∀ io', let r' := Toggle io' 2 r.1.1 r.1.2 in
       tasks r'.1.1 = tasks s ∧ nextID r'.1.1 = nextID s ∧
       (r'.2.2 = None → r'.2.1 = t)).
Proof.
  cbv zeta.
  set (s := {| tasks := [Ref.task 1 "a"; Ref.task 2 "b"; Ref.task 3 "c"];
               nextID := 4; dataDir := "data" |}).
  assert (2%Z ∈ ID <$> tasks s) as Hin by (apply (bool_decide_unpack _); vm_compute; exact I).
  split; [exact Hin|]. split; [vm_compute; reflexivity|].
  exact (Toggle_flips_done SaveRuns 2 s ∅ Hin).
Defined.

(** ** Runs for the further properties *)

#[local] Existing Instance RefNet.net.

(** A failed rename after which the temporary file is gone. *)
Lemma save_leaves_no_temp_file_run :
  ((save Ref.rename_fails RefNet.three_tasks ∅).2 = None ∨
   (fault Ref.rename_fails ≠ Some CreateFails ∧ removeOK Ref.rename_fails = true)) ∧
  (save Ref.rename_fails RefNet.three_tasks ∅).2 = Some ErrRenameTempFile ∧
  (save Ref.rename_fails RefNet.three_tasks ∅).1 !! (dataPath RefNet.three_tasks +:+ ".tmp") = None.
Proof.
  assert (fault Ref.rename_fails ≠ Some CreateFails ∧ removeOK Ref.rename_fails = true)
    as Hio by (split; [discriminate|reflexivity]).
  split; [right; exact Hio|]. split; [vm_compute; reflexivity|].
  exact (save_leaves_no_temp_file Ref.rename_fails RefNet.three_tasks ∅ (or_intror Hio)).
Defined.

(** A Create that returns no error, and the data file after it. *)
Lemma success_means_saved_run :
  let o := OpCreate 0%Z SaveRuns "a" in
  reply_error (step o Ref.empty_store ∅).2 = None ∧
  ∃ text, json_Encode (tasks (step o Ref.empty_store ∅).1.1) = Some text ∧
          (step o Ref.empty_store ∅).1.2 !! dataPath (step o Ref.empty_store ∅).1.1
            = Some text.
Proof.
  cbv zeta.
  assert (reply_error (step (OpCreate 0%Z SaveRuns "a") Ref.empty_store ∅).2 = None)
    as Hok by (vm_compute; reflexivity).
  split; [exact Hok|].
  exact (success_means_saved (OpCreate 0%Z SaveRuns "a") Ref.empty_store ∅ Hok).
Defined.

(** A store that handed out ids 1 and 2 and deleted task 2: the restart
    brings nextID back from 3 to 2. *)
Lemma restart_forgets_deleted_ids_run :
  let s := {| tasks := [Ref.task 1 "a"]; nextID := 3; dataDir := "data" |} in
  let fs := Ref.disk [Ref.task 1 "a"] in
  fs !! filepath_Join "data" "tasks.json" = Some (Ref.text_of [Ref.task 1 "a"]) ∧
  json_Decode (Ref.text_of [Ref.task 1 "a"]) = Some (tasks s) ∧
  Forall (λ t, (ID t < nextID s)%Z) (tasks s) ∧
  (1 ≤ nextID s ≤ int_max)%Z ∧
  NewTaskStore LoadRuns "data" fs =
    inl {| tasks := [Ref.task 1 "a"]; nextID := 2; dataDir := "data" |} ∧
  ∃ s', NewTaskStore LoadRuns "data" fs = inl s' ∧
    tasks s' = tasks s ∧
    (nextID s' ≤ nextID s)%Z ∧
    (nextID s' = nextID s ↔ nextID s = 1%Z ∨ (nextID s - 1)%Z ∈ ID <$> tasks s).
Proof.
  cbv zeta.
  set (s := {| tasks := [Ref.task 1 "a"]; nextID := 3; dataDir := "data" |}).
  assert (Ref.disk [Ref.task 1 "a"] !! filepath_Join "data" "tasks.json"
          = Some (Ref.text_of [Ref.task 1 "a"])) as Hfile by (vm_compute; reflexivity).
  assert (json_Decode (Ref.text_of [Ref.task 1 "a"]) = Some (tasks s)) as Hdec
    by (vm_compute; reflexivity).
  assert (Forall (λ t, (ID t < nextID s)%Z) (tasks s)) as Hlt by (repeat constructor).
  assert (1 ≤ nextID s ≤ int_max)%Z as Hpos by (vm_compute; split; discriminate).
  split; [exact Hfile|]. split; [exact Hdec|]. split; [exact Hlt|].
  split; [exact Hpos|]. split; [vm_compute; reflexivity|].
  exact (restart_forgets_deleted_ids "data" (Ref.disk [Ref.task 1 "a"])
           (Ref.text_of [Ref.task 1 "a"]) s Hfile Hdec Hlt Hpos).
Defined.

(** Three Create calls, one with a blank title and one whose save fails. *)
Lemma Creates_append_in_order_run :
  let calls := [(0%Z, SaveRuns, "a"); (1%Z, Ref.rename_fails, "  ");
                (2%Z, Ref.rename_fails, " b ")] in
  in_int (nextID Ref.empty_store) ∧
  Title <$> tasks (run (creates calls) Ref.empty_store ∅).1.1 = ["a"; "b"] ∧
  ∃ new, tasks (run (creates calls) Ref.empty_store ∅).1.1
           = tasks Ref.empty_store ++ new ∧
    Title <$> new = filter (λ t, t ≠ "") (strings_TrimSpace <$> (snd <$> calls)) ∧
    Forall (λ t, Done t = false) new ∧
    ID <$> new = (λ i, wrap (nextID Ref.empty_store + Z.of_nat i)) <$> seq 0 (length new) ∧
    nextID (run (creates calls) Ref.empty_store ∅).1.1
      = wrap (nextID Ref.empty_store + Z.of_nat (length new)).
Proof.
  cbv zeta.
  assert (in_int (nextID Ref.empty_store)) as Hint
    by (unfold in_int, int_min, int_max; simpl; lia).
  split; [exact Hint|]. split; [vm_compute; reflexivity|].
  exact (Creates_append_in_order
           [(0%Z, SaveRuns, "a"); (1%Z, Ref.rename_fails, "  ");
            (2%Z, Ref.rename_fails, " b ")] Ref.empty_store ∅ Hint).
Defined.


(** A reachable state of the slice model: a new store, then a Create. *)
Lemma slices_refine_sequences_run :
  let c := Mem.Create 0%Z SaveRuns "a" RefNet.heap0 RefNet.mstore0 ∅ in
  let h := c.1.1.1 in
  let ms := c.1.1.2 in
  let fs := c.1.2 in
  Mem.reachable h ms fs [] ∧
  tasks (Mem.view h ms) = [Ref.task 1 "a"] ∧
  Mem.wf h ms ∧
  reachable (Mem.view h ms) fs ∧
  Mem.elems (Mem.List h ms).1 (Mem.List h ms).2 = List (Mem.view h ms) ∧
  (∀ now io title,
     let r := Mem.Create now io title h ms fs in
     Create now io title (Mem.view h ms) fs = (Mem.view r.1.1.1 r.1.1.2, r.1.2, r.2)) ∧
  (∀ io id,
     let r := Mem.Toggle io id h ms fs in
     Toggle io id (Mem.view h ms) fs = (Mem.view r.1.1.1 r.1.1.2, r.1.2, r.2)) ∧
  (∀ io id,
     let r := Mem.Delete io id h ms fs in
     Delete io id (Mem.view h ms) fs = (Mem.view r.1.1.1 r.1.1.2, r.1.2, r.2)) ∧
  (∀ io dir h0 fs0,
     match (Mem.NewTaskStore io dir h0 fs0).2 with
     | inl ms0 =>
         NewTaskStore io dir fs0 = inl (Mem.view (Mem.NewTaskStore io dir h0 fs0).1 ms0)
     | inr e => NewTaskStore io dir fs0 = inr e
     end).
Proof.
  cbv zeta.
  set (c := Mem.Create 0%Z SaveRuns "a" RefNet.heap0 RefNet.mstore0 ∅).
  assert (Mem.reachable c.1.1.1 c.1.1.2 c.1.2 []) as Hreach.
  { apply (Mem.reach_Create 0%Z SaveRuns "a" RefNet.heap0 RefNet.mstore0 ∅ []
             c.1.1.1 c.1.1.2 c.1.2 c.2).
    - apply (Mem.reach_new LoadRuns "data" [] ∅). vm_compute. reflexivity.
    - vm_compute. reflexivity. }
  split; [exact Hreach|]. split; [vm_compute; reflexivity|].
  exact (slices_refine_sequences c.1.1.1 c.1.1.2 c.1.2 [] Hreach).
Defined.

(** A caller that kept the slice of a List call, lets the store Create and
    Delete, and then writes through its slice. *)
Lemma callers_cannot_reach_store_run :
  let c := Mem.Create 0%Z SaveRuns "a" RefNet.heap0 RefNet.mstore0 ∅ in
  let out := (Mem.List c.1.1.1 c.1.1.2).2 in
  let d := Mem.Delete SaveRuns 1 (Mem.List c.1.1.1 c.1.1.2).1 c.1.1.2 c.1.2 in
  Mem.reachable d.1.1.1 d.1.1.2 d.1.2 [out] ∧ out ∈ [out] ∧
  Mem.elems d.1.1.1 out = [Ref.task 1 "a"] ∧
  tasks (Mem.view d.1.1.1 d.1.1.2) = [] ∧
  Mem.ptr out ≠ Mem.ptr (Mem.mtasks d.1.1.2) ∧
  Mem.view (Mem.mutate (Mem.MSet 0 zeroTask) d.1.1.1 out).1 d.1.1.2
    = Mem.view d.1.1.1 d.1.1.2.
Proof.
  cbv zeta.
  set (c := Mem.Create 0%Z SaveRuns "a" RefNet.heap0 RefNet.mstore0 ∅).
  set (out := (Mem.List c.1.1.1 c.1.1.2).2).
  set (d := Mem.Delete SaveRuns 1 (Mem.List c.1.1.1 c.1.1.2).1 c.1.1.2 c.1.2).
  assert (Mem.reachable d.1.1.1 d.1.1.2 d.1.2 [out]) as Hreach.
  { apply (Mem.reach_Delete SaveRuns 1 (Mem.List c.1.1.1 c.1.1.2).1 c.1.1.2 c.1.2
             [out] d.1.1.1 d.1.1.2 d.1.2 d.2); [|vm_compute; reflexivity].
    apply (Mem.reach_List c.1.1.1 c.1.1.2 c.1.2 []).
    apply (Mem.reach_Create 0%Z SaveRuns "a" RefNet.heap0 RefNet.mstore0 ∅ []
             c.1.1.1 c.1.1.2 c.1.2 c.2); [|vm_compute; reflexivity].
    apply (Mem.reach_new LoadRuns "data" [] ∅). vm_compute. reflexivity. }
  assert (out ∈ [out]) as Hout by (apply list_elem_of_singleton; reflexivity).
  split; [exact Hreach|]. split; [exact Hout|].
  split; [vm_compute; reflexivity|]. split; [vm_compute; reflexivity|].
  exact (callers_cannot_reach_store d.1.1.1 d.1.1.2 d.1.2 [out] out
           (Mem.MSet 0 zeroTask) Hreach Hout).
Defined.

(** A Delete of the first of two tasks in an array of three cells. *)
Lemma Delete_works_in_place_run :
  let h := [[Ref.task 1 "a"; Ref.task 2 "b"; zeroTask]] in
  let ms := {| Mem.mtasks := {| Mem.ptr := 0; Mem.off := 0; Mem.len := 2 |};
               Mem.mnextID := 3; Mem.mdataDir := "data" |} in
  let h' := (Mem.Delete SaveRuns 1 h ms ∅).1.1.1 in
  let ms' := (Mem.Delete SaveRuns 1 h ms ∅).1.1.2 in
  Mem.wf h ms ∧
  h' = [[Ref.task 2 "b"; Ref.task 2 "b"; zeroTask]] ∧
  length h' = length h ∧
  Mem.ptr (Mem.mtasks ms') = Mem.ptr (Mem.mtasks ms) ∧
  Mem.off (Mem.mtasks ms') = Mem.off (Mem.mtasks ms) ∧
  (∀ p, p ≠ Mem.ptr (Mem.mtasks ms) → h' !! p = h !! p) ∧
  (1%Z ∈ ID <$> Mem.elems h (Mem.mtasks ms) →
     S (Mem.len (Mem.mtasks ms')) = Mem.len (Mem.mtasks ms)) ∧
  (1%Z ∉ ID <$> Mem.elems h (Mem.mtasks ms) → h' = h ∧ ms' = ms).
Proof.
  cbv zeta.
  set (h := [[Ref.task 1 "a"; Ref.task 2 "b"; zeroTask]]).
  set (ms := {| Mem.mtasks := {| Mem.ptr := 0; Mem.off := 0; Mem.len := 2 |};
                Mem.mnextID := 3; Mem.mdataDir := "data" |}).
  assert (Mem.wf h ms) as Hwf by (split; simpl; lia).
  split; [exact Hwf|]. split; [vm_compute; reflexivity|].
  exact (Delete_works_in_place SaveRuns 1 h ms ∅ Hwf).
Defined.

(** A POST that changes the store. *)
Lemma only_mutating_methods_mutate_run :
  (handle PatTasks 0%Z SaveRuns (RefNet.post "a") Ref.empty_store ∅).1
    ≠ (Ref.empty_store, ∅) ∧
  ((PatTasks = PatTasks ∧ Method (RefNet.post "a") = "POST") ∨
   (PatTasks = PatTask ∧
    (Method (RefNet.post "a") = "PATCH" ∨ Method (RefNet.post "a") = "DELETE"))).
Proof.
  assert ((handle PatTasks 0%Z SaveRuns (RefNet.post "a") Ref.empty_store ∅).1
          ≠ (Ref.empty_store, ∅)) as Hchg.
  { intros Heq. apply (f_equal (λ x, length (tasks x.1))) in Heq.
    vm_compute in Heq. discriminate. }
  split; [exact Hchg|].
  exact (only_mutating_methods_mutate PatTasks 0%Z SaveRuns (RefNet.post "a")
           Ref.empty_store ∅ Hchg).
Defined.

(** A POST answered 201, and the same POST answered 400 when the rename
    fails, with the task in the store both times. *)
Lemma POST_creates_or_rejects_run :
  let r := RefNet.post " Buy milk " in
  let out := handleTasks 5%Z Ref.rename_fails r Ref.empty_store ∅ in
  Method r = "POST" ∧
  (handleTasks 5%Z SaveRuns r Ref.empty_store ∅).2 =
    writeJSON StatusCreated
      (PTask {| ID := 1; Title := "Buy milk"; Done := false; CreatedAt := 5%Z |}) ∧
  out.2 = http_Error [] (PError ErrRenameTempFile) StatusBadRequest ∧
  Title <$> tasks out.1.1 = ["Buy milk"] ∧
  ((∃ t, out.2 = writeJSON StatusCreated (PTask t) ∧
         tasks out.1.1 = tasks Ref.empty_store ++ [t] ∧ ID t = nextID Ref.empty_store ∧
         Title t ≠ "" ∧ Done t = false ∧
         ∃ text, json_Encode (tasks out.1.1) = Some text ∧
                 out.1.2 !! dataPath out.1.1 = Some text) ∨
   (status_of out.2 = Some StatusBadRequest ∧ out.1.1 = Ref.empty_store ∧ out.1.2 = ∅) ∨
   (∃ e t, out.2 = http_Error [] (PError e) StatusBadRequest ∧
           kind e = PersistenceError ∧
           tasks out.1.1 = tasks Ref.empty_store ++ [t] ∧ ID t = nextID Ref.empty_store ∧
           nextID out.1.1 = wrap (nextID Ref.empty_store + 1))).
Proof.
  cbv zeta. split; [reflexivity|]. split; [vm_compute; reflexivity|].
  split; [vm_compute; reflexivity|]. split; [vm_compute; reflexivity|].
  exact (POST_creates_or_rejects 5%Z Ref.rename_fails (RefNet.post " Buy milk ")
           Ref.empty_store ∅ eq_refl).
Defined.

(** A GET on an id that is not a number: 400, not 405. *)
Lemma bad_id_never_reaches_store_run :
  no_slash "abc" = true ∧ ("abc" = "" ∨ strconv_Atoi "abc" = None) ∧
  handleTask SaveRuns {| Method := "GET"; Path := "/api/tasks/" +:+ "abc"; Body := None |}
    RefNet.three_tasks ∅ =
  (RefNet.three_tasks, ∅,
   if decide ("abc" = "") then http_NotFound
   else http_Error [] (PText "invalid task id") StatusBadRequest).
Proof.
  assert ("abc" = "" ∨ strconv_Atoi "abc" = None) as Hbad
    by (right; vm_compute; reflexivity).
  split; [reflexivity|]. split; [exact Hbad|].
  exact (bad_id_never_reaches_store SaveRuns "GET" "abc" None RefNet.three_tasks ∅
           eq_refl Hbad).
Defined.

(** A DELETE whose path goes on after the id. *)
Lemma trailing_segments_are_ignored_run :
  no_slash "2" = true ∧
  (handleTask SaveRuns {| Method := "DELETE";
                          Path := "/api/tasks/" +:+ "2" +:+ "/" +:+ "x/y";
                          Body := None |} RefNet.three_tasks ∅).2
    = Written StatusNoContent [] PEmpty ∧
  handleTask SaveRuns {| Method := "DELETE";
                         Path := "/api/tasks/" +:+ "2" +:+ "/" +:+ "x/y";
                         Body := None |} RefNet.three_tasks ∅ =
  handleTask SaveRuns {| Method := "DELETE"; Path := "/api/tasks/" +:+ "2";
                         Body := Some "z" |} RefNet.three_tasks ∅.
Proof.
  split; [reflexivity|]. split; [vm_compute; reflexivity|].
  exact (trailing_segments_are_ignored SaveRuns "DELETE" "2" "x/y" None (Some "z")
           RefNet.three_tasks ∅ eq_refl).
Defined.

(** A PATCH of task 2 whose save fails at the rename: 404, with the task
    flipped in the store. *)
Lemma item_request_outcomes_run :
  let out := handleTask Ref.rename_fails
               {| Method := "PATCH"; Path := "/api/tasks/" +:+ "2"; Body := None |}
               RefNet.three_tasks ∅ in
  no_slash "2" = true ∧ "2" ≠ "" ∧ strconv_Atoi "2" = Some 2%Z ∧
  ("PATCH" = "PATCH" ∨ "PATCH" = "DELETE") ∧
  out.2 = http_Error [] (PError ErrRenameTempFile) StatusNotFound ∧
  Done <$> tasks out.1.1 = [false; true; false] ∧
  (2%Z ∉ ID <$> tasks RefNet.three_tasks →
     out = (RefNet.three_tasks, ∅,
            http_Error [] (PError ErrTaskNotFound) StatusNotFound)) ∧
  (2%Z ∈ ID <$> tasks RefNet.three_tasks →
     ∃ l1 t l2, tasks RefNet.three_tasks = l1 ++ t :: l2 ∧ ID t = 2%Z ∧
       (2%Z ∉ ID <$> l1) ∧
       tasks out.1.1 = (if decide ("PATCH" = "PATCH") then l1 ++ flip_done t :: l2
                        else l1 ++ l2) ∧
       nextID out.1.1 = nextID RefNet.three_tasks ∧
       ((out.2 = (if decide ("PATCH" = "PATCH")
                  then writeJSON StatusOK (PTask (flip_done t))
                  else Written StatusNoContent [] PEmpty) ∧
         ∃ text, json_Encode (tasks out.1.1) = Some text ∧
                 out.1.2 !! dataPath out.1.1 = Some text) ∨
        (∃ e, out.2 = http_Error [] (PError e) StatusNotFound ∧
              kind e = PersistenceError))).
Proof.
  cbv zeta.
  assert (strconv_Atoi "2" = Some 2%Z) as Hid by (vm_compute; reflexivity).
  split; [reflexivity|]. split; [discriminate|]. split; [exact Hid|].
  split; [left; reflexivity|]. split; [vm_compute; reflexivity|].
  split; [vm_compute; reflexivity|].
  exact (item_request_outcomes Ref.rename_fails "PATCH" "2" 2%Z None
           RefNet.three_tasks ∅ eq_refl ltac:(discriminate) Hid (or_introl eq_refl)).
Defined.

(** Two POSTs answered 201, then a GET. *)
Lemma created_tasks_are_listed_run :
  let reqs := [(1%Z, SaveRuns, RefNet.post "a"); (2%Z, SaveRuns, RefNet.post "b")] in
  Forall (λ resp, status_of resp = Some StatusCreated)
    (exchange reqs RefNet.three_tasks ∅).2 ∧
  Title <$> omap task_of (exchange reqs RefNet.three_tasks ∅).2 = ["a"; "b"] ∧
  (handleTasks 3%Z SaveRuns {| Method := "GET"; Path := "/api/tasks"; Body := None |}
     (exchange reqs RefNet.three_tasks ∅).1.1 (exchange reqs RefNet.three_tasks ∅).1.2).2 =
  writeJSON StatusOK
    (PTasks (tasks RefNet.three_tasks ++ omap task_of (exchange reqs RefNet.three_tasks ∅).2)).
Proof.
  cbv zeta.
  assert (Forall (λ resp, status_of resp = Some StatusCreated)
            (exchange [(1%Z, SaveRuns, RefNet.post "a"); (2%Z, SaveRuns, RefNet.post "b")]
               RefNet.three_tasks ∅).2) as Hall.
  { apply (bool_decide_unpack _). vm_compute. exact I. }
  split; [exact Hall|]. split; [vm_compute; reflexivity|].
  exact (created_tasks_are_listed
           [(1%Z, SaveRuns, RefNet.post "a"); (2%Z, SaveRuns, RefNet.post "b")]
           3%Z SaveRuns None RefNet.three_tasks ∅ Hall).
Defined.

(** A run with a Create and a Toggle, and task 2 after it. *)
Lemma tasks_keep_id_title_time_run :
  let ops := [OpCreate 5%Z SaveRuns " d "; OpToggle SaveRuns 2] in
  let t' := {| ID := 2; Title := "b"; Done := true; CreatedAt := 0%Z |} in
  t' ∈ tasks (run ops RefNet.three_tasks ∅).1.1 ∧
  ((∃ t, t ∈ tasks RefNet.three_tasks ∧ ID t' = ID t ∧ Title t' = Title t ∧
         CreatedAt t' = CreatedAt t) ∨
   (∃ now io title, OpCreate now io title ∈ ops ∧
      Title t' = strings_TrimSpace title ∧ Title t' ≠ "" ∧ CreatedAt t' = now)).
Proof.
  cbv zeta.
  assert ({| ID := 2; Title := "b"; Done := true; CreatedAt := 0%Z |}
          ∈ tasks (run [OpCreate 5%Z SaveRuns " d "; OpToggle SaveRuns 2]
                     RefNet.three_tasks ∅).1.1) as Hin
    by (apply (bool_decide_unpack _); vm_compute; exact I).
  split; [exact Hin|].
  exact (tasks_keep_id_title_time [OpCreate 5%Z SaveRuns " d "; OpToggle SaveRuns 2]
           RefNet.three_tasks ∅ _ Hin).
Defined.
